(** * Custom nodes from XML templates: tree model, layout, diff and patch

    A shallow embedding of [src/shape/xml.ts].  The source is JavaScript
    behind thin TypeScript annotations ([attrs] is [{ [key: string]: any }]),
    so attribute values are modelled as dynamically typed values with the
    coercions that the source's operators perform.

    - Numbers are the rationals plus [NaN]: every finite double is a
      rational, and arithmetic is taken exact (no rounding, no overflow, no
      infinities, no signed zero).  The runtime computes the same on
      integers that stay small; statements about computed numbers are made
      for those ([safe_integer]).
    - Strings are byte strings: [length] counts bytes, and [trim], the class
      [\w] and the case conversions act on ASCII.  Statements that depend
      on it are made for ASCII text ([ascii_only]).
    - Conversions are total: an object converts through its string form.
      At run time an object with a [toString] or [valueOf] of its own may
      fail to convert; statements about converted values are made for
      values that are not objects ([primitive]).
    - Objects and arrays are immutable contents tagged with an identity; the
      only objects that the source mutates are the nodes themselves, and a
      function that writes to a node returns the node as it leaves it.
    - The collaborators are outside the repository.  A DOM element is plain
      data; [JSON5.parse] and the two conversions between strings and
      numbers are parameters; [lodash.get] is modelled on own properties for
      paths of word characters and dots; the host container is its list of
      child shapes together with the log of the calls made on it. *)

From Stdlib Require Import String Ascii List Bool Arith ZArith QArith Lia Lqa.
From Stdlib Require Import DecimalString.
Import ListNotations.

Local Open Scope list_scope.
Local Open Scope string_scope.

Local Set Warnings "-register-all".

(* ================================================================= *)
(** ** JavaScript values *)

Inductive number : Type :=
| NaN
| Fin (q : Q).

(** Objects and arrays carry the identity of the heap cell they live in:
    [===] on them compares identities, never contents. *)
Inductive value : Type :=
| VUndef
| VNull
| VBool (b : bool)
| VNum (n : number)
| VStr (s : string)
| VObj (ref : nat) (fields : list (string * value))
| VArr (ref : nat) (items : list value).

Definition props : Type := list (string * value).

Definition num_of_nat (n : nat) : number := Fin (inject_Z (Z.of_nat n)).
Definition num_of_Z (z : Z) : number := Fin (inject_Z z).

Definition num_add (a b : number) : number :=
  match a, b with
  | Fin p, Fin q => Fin (p + q)
  | _, _ => NaN
  end.

Definition num_mul (a b : number) : number :=
  match a, b with
  | Fin p, Fin q => Fin (p * q)
  | _, _ => NaN
  end.

(** [a < b] on numbers; any comparison with [NaN] is false. *)
Definition num_ltb (a b : number) : bool :=
  match a, b with
  | Fin p, Fin q => negb (Qle_bool q p)
  | _, _ => false
  end.

Definition num_leb (a b : number) : bool :=
  match a, b with
  | Fin p, Fin q => Qle_bool p q
  | _, _ => false
  end.

Definition num_eqb (a b : number) : bool :=
  match a, b with
  | Fin p, Fin q => Qeq_bool p q
  | _, _ => false
  end.

(** ToBoolean. *)
Definition truthy (v : value) : bool :=
  match v with
  | VUndef | VNull => false
  | VBool b => b
  | VNum NaN => false
  | VNum (Fin q) => negb (Qeq_bool q 0)
  | VStr s => negb (s =? "")
  | VObj _ _ | VArr _ _ => true
  end.

(** [a || b] and [a && b] return one of their operands. *)
Definition js_or (a b : value) : value := if truthy a then a else b.
Definition js_and (a b : value) : value := if truthy a then b else a.

(** [a === b]. *)
Definition strict_eq (a b : value) : bool :=
  match a, b with
  | VUndef, VUndef => true
  | VNull, VNull => true
  | VBool p, VBool q => Bool.eqb p q
  | VNum m, VNum n => num_eqb m n
  | VStr s, VStr t => (s =? t)
  | VObj r _, VObj r' _ => Nat.eqb r r'
  | VArr r _, VArr r' _ => Nat.eqb r r'
  | _, _ => false
  end.

Definition is_string (v : value) : bool :=
  match v with VStr _ => true | _ => false end.

(* ================================================================= *)
(** ** Property lists

    A plain object is its own enumerable properties in insertion order. *)

Fixpoint lookup (k : string) (ps : props) : option value :=
  match ps with
  | [] => None
  | (k', v) :: rest => if k =? k' then Some v else lookup k rest
  end.

(** [o[k]]: a missing property reads as [undefined]. *)
Definition get (ps : props) (k : string) : value :=
  match lookup k ps with
  | Some v => v
  | None => VUndef
  end.

(** [o[k] = v]: overwrite in place, or append a new property. *)
Fixpoint assign (k : string) (v : value) (ps : props) : props :=
  match ps with
  | [] => [(k, v)]
  | (k', v') :: rest =>
      if k =? k' then (k, v) :: rest else (k', v') :: assign k v rest
  end.

(** [{ ...base, ...extra }]. *)
Definition spread (base extra : props) : props :=
  fold_left (fun acc kv => assign (fst kv) (snd kv) acc) extra base.

Definition keys (ps : props) : list string := map fst ps.

Definition includes (ks : list string) (k : string) : bool :=
  existsb (String.eqb k) ks.

Definition nat_to_string (n : nat) : string :=
  NilZero.string_of_uint (Nat.to_uint n).

(* ================================================================= *)
(** ** The node structure *)

Module BBox.
Record t : Type := mk { x : value; y : value; width : value; height : value }.

(** The box as the property list [{ x, y, width, height }]. *)
Definition to_props (b : t) : props :=
  [("x", x b); ("y", y b); ("width", width b); ("height", height b)].
End BBox.

Module Offset.
Record t : Type := mk { x : value; y : value }.
End Offset.

(** [NodeInstructure]: the structure that is finally rendered.  [type] is
    whatever was stored under that name, normally a string.  [children] and
    [bbox] are [None] while the field is absent from the object; [rest] holds
    every other own property (such as [keyshape]). *)
Inductive NodeInstructure : Type :=
| Node (type : value) (attrs : props)
       (children : option (list NodeInstructure))
       (bbox : option BBox.t) (rest : props).

Definition node_type (n : NodeInstructure) : value :=
  match n with Node ty _ _ _ _ => ty end.
Definition node_attrs (n : NodeInstructure) : props :=
  match n with Node _ a _ _ _ => a end.
Definition node_children (n : NodeInstructure) : option (list NodeInstructure) :=
  match n with Node _ _ c _ _ => c end.
Definition node_bbox (n : NodeInstructure) : option BBox.t :=
  match n with Node _ _ _ b _ => b end.
Definition node_rest (n : NodeInstructure) : props :=
  match n with Node _ _ _ _ r => r end.

Definition set_attrs (n : NodeInstructure) (a : props) : NodeInstructure :=
  match n with Node ty _ c b r => Node ty a c b r end.
Definition set_bbox (n : NodeInstructure) (b : BBox.t) : NodeInstructure :=
  match n with Node ty a c _ r => Node ty a c (Some b) r end.

(** [node.children?.length]: [None] stands for [undefined]. *)
Definition children_length (n : NodeInstructure) : option nat :=
  match node_children n with
  | Some l => Some (List.length l)
  | None => None
  end.

(** [P] holds at every node of the tree. *)
Inductive Forall_nodes (P : NodeInstructure -> Prop) : NodeInstructure -> Prop :=
| Forall_nodes_leaf n :
    P n -> node_children n = None -> Forall_nodes P n
| Forall_nodes_inner n l :
    P n -> node_children n = Some l -> Forall (Forall_nodes P) l ->
    Forall_nodes P n.

(** [R] relates two trees of the same shape node by node. *)
Inductive paired (R : NodeInstructure -> NodeInstructure -> Prop)
  : NodeInstructure -> NodeInstructure -> Prop :=
| paired_leaf a b :
    R a b -> node_children a = None -> node_children b = None -> paired R a b
| paired_inner a b l l' :
    R a b -> node_children a = Some l -> node_children b = Some l' ->
    Forall2 (paired R) l l' -> paired R a b.

(** A finite number. *)
Definition as_number (v : value) : option Q :=
  match v with
  | VNum (Fin q) => Some q
  | _ => None
  end.

Definition is_number (v : value) : bool :=
  match v with VNum _ => true | _ => false end.



(** [bbox.x + bbox.width] and [bbox.y + bbox.height]. *)
Definition right_edge (n : NodeInstructure) : option Q :=
  match node_bbox n with
  | Some b =>
      match as_number (BBox.x b), as_number (BBox.width b) with
      | Some x, Some w => Some (x + w)%Q
      | _, _ => None
      end
  | None => None
  end.

Definition bottom_edge (n : NodeInstructure) : option Q :=
  match node_bbox n with
  | Some b =>
      match as_number (BBox.y b), as_number (BBox.height b) with
      | Some y, Some h => Some (y + h)%Q
      | _, _ => None
      end
  | None => None
  end.




(** An attribute that is a number whenever it counts as set. *)
Definition number_if_set (v : value) : bool :=
  negb (truthy v) || is_number v.

(** The attributes that [getBBox] and [generateTarget] copy into the box
    or add to an offset as they are. *)
Definition numeric_geometry (n : NodeInstructure) : Prop :=
  number_if_set (get (node_attrs n) "width") = true
  /\ number_if_set (get (node_attrs n) "height") = true
  /\ number_if_set (get (node_attrs n) "marginTop") = true
  /\ number_if_set (get (node_attrs n) "marginLeft") = true.


(* ================================================================= *)
(** ** Coercions

  The two conversions between strings and numbers belong to the language
  runtime (StringToNumber and Number::toString of ECMAScript); the
  development is parametric in them. *)

Section Runtime.

Variable StringToNumber : string -> number.
Variable NumberToString : number -> string.

(** ToString.  Plain objects print as ["[object Object]"]; an array joins
    its elements with commas, [undefined] and [null] printing as nothing. *)
Fixpoint ToString (v : value) : string :=
  match v with
  | VUndef => "undefined"
  | VNull => "null"
  | VBool true => "true"
  | VBool false => "false"
  | VNum n => NumberToString n
  | VStr s => s
  | VObj _ _ => "[object Object]"
  | VArr _ items =>
      (fix join (l : list value) : string :=
         match l with
         | [] => ""
         | e :: rest =>
             let s := match e with
                      | VUndef | VNull => ""
                      | _ => ToString e
                      end in
             match rest with
             | [] => s
             | _ :: _ => s ++ "," ++ join rest
             end
         end) items
  end.

(** ToPrimitive: objects and arrays convert through their string form. *)
Definition ToPrimitive (v : value) : value :=
  match v with
  | VObj _ _ | VArr _ _ => VStr (ToString v)
  | _ => v
  end.

(** ToNumber. *)
Definition ToNumber (v : value) : number :=
  match ToPrimitive v with
  | VUndef => NaN
  | VNull => Fin 0
  | VBool true => Fin 1
  | VBool false => Fin 0
  | VNum n => n
  | VStr s => StringToNumber s
  | VObj _ _ | VArr _ _ => NaN
  end.

(** [a + b]: concatenation as soon as one primitive operand is a string. *)
Definition js_add (a b : value) : value :=
  let pa := ToPrimitive a in
  let pb := ToPrimitive b in
  if is_string pa || is_string pb
  then VStr (ToString pa ++ ToString pb)
  else VNum (num_add (ToNumber pa) (ToNumber pb)).

(** [a * b]. *)
Definition js_mul (a b : value) : value :=
  VNum (num_mul (ToNumber a) (ToNumber b)).

(** [a > b]: two strings compare as strings, anything else as numbers. *)
Definition js_gt (a b : value) : bool :=
  match ToPrimitive a, ToPrimitive b with
  | VStr s, VStr t => String.ltb t s
  | pa, pb => num_ltb (ToNumber pb) (ToNumber pa)
  end.

(** [a >= b]. *)
Definition js_ge (a b : value) : bool :=
  match ToPrimitive a, ToPrimitive b with
  | VStr s, VStr t => String.leb t s
  | pa, pb => num_leb (ToNumber pb) (ToNumber pa)
  end.

(** [v.length] for a value [v] that is neither [undefined] nor [null]. *)
Definition get_length (v : value) : value :=
  match v with
  | VStr s => VNum (num_of_nat (String.length s))
  | VArr _ items => VNum (num_of_nat (List.length items))
  | VObj _ fields => get fields "length"
  | _ => VUndef
  end.


(* ================================================================= *)
(** ** Layout: [getBBox] and [generateTarget] *)

Definition num (z : Z) : value := VNum (num_of_Z z).

(** The [switch (node.type)] of [getBBox]: the pair
    [(shapeWidth, shapeHeight)], each [undefined] until assigned. *)
Definition shapeSize (type : value) (attrs : props) : value * value :=
  if strict_eq type (VStr "maker") || strict_eq type (VStr "circle") then
    if truthy (get attrs "r")
    then (js_mul (num 2) (get attrs "r"), js_mul (num 2) (get attrs "r"))
    else (VUndef, VUndef)
  else if strict_eq type (VStr "ellipse") then
    if truthy (js_and (get attrs "rx") (get attrs "ry"))
    then (js_mul (num 2) (get attrs "rx"), js_mul (num 2) (get attrs "ry"))
    else (VUndef, VUndef)
  else if strict_eq type (VStr "text") then
    if truthy (get attrs "text")
    then (js_mul (get_length (get attrs "text")) (get attrs "length"), num 16)
    else (VUndef, VUndef)
  else
    (if truthy (get attrs "width") then get attrs "width" else VUndef,
     if truthy (get attrs "height") then get attrs "height" else VUndef).

(** The [text] case also reserves a line and backfills style defaults. *)
Definition is_text_shape (type : value) (attrs : props) : bool :=
  strict_eq type (VStr "text") && truthy (get attrs "text").

Definition text_defaults : props :=
  [("fontSize", num 12); ("fill", VStr "#000")].

(** [getBBox(node, offset, chilrenBBox)].  The source writes [node.attrs]
    in the [text] case, so the node is returned next to the box. *)
Definition getBBox (node : NodeInstructure) (offset : Offset.t)
    (chilrenBBox : BBox.t) : BBox.t * NodeInstructure :=
  let attrs := node_attrs node in
  let bbox := BBox.mk (js_or (Offset.x offset) (num 0))
                      (js_or (Offset.y offset) (num 0))
                      (js_or (BBox.width chilrenBBox) (num 0))
                      (js_or (BBox.height chilrenBBox) (num 0)) in
  let '(shapeWidth, shapeHeight) := shapeSize (node_type node) attrs in
  let '(bbox, node) :=
    if is_text_shape (node_type node) attrs
    then (BBox.mk (BBox.x bbox) (js_add (BBox.y bbox) shapeHeight)
                  (BBox.width bbox) (BBox.height bbox),
          set_attrs node (spread text_defaults attrs))
    else (bbox, node) in
  let bbox :=
    if js_ge shapeHeight (num 0)
    then BBox.mk (BBox.x bbox) (BBox.y bbox) (BBox.width bbox) shapeHeight
    else bbox in
  let bbox :=
    if js_ge shapeWidth (num 0)
    then BBox.mk (BBox.x bbox) (BBox.y bbox) shapeWidth (BBox.height bbox)
    else bbox in
  let bbox :=
    if truthy (get attrs "marginTop")
    then BBox.mk (BBox.x bbox) (js_add (BBox.y bbox) (get attrs "marginTop"))
                 (BBox.width bbox) (BBox.height bbox)
    else bbox in
  let bbox :=
    if truthy (get attrs "marginLeft")
    then BBox.mk (js_add (BBox.x bbox) (get attrs "marginLeft")) (BBox.y bbox)
                 (BBox.width bbox) (BBox.height bbox)
    else bbox in
  (bbox, node).

(** The loop state of [generateTarget]: [offset.y] and the running
    [defaultBbox.width] and [defaultBbox.height]. *)
Record flow : Type :=
  mkFlow { flow_y : value; flow_width : value; flow_height : value }.

(** What one iteration does after its child is resolved. *)
Definition advance (st : flow) (node : NodeInstructure) : flow :=
  match node_bbox node with
  | Some bbox =>
      let y := js_add (flow_y st) (BBox.height bbox) in
      let w := if js_gt (js_add (BBox.width bbox) (BBox.x bbox)) (flow_width st)
               then js_add (BBox.width bbox) (BBox.x bbox)
               else flow_width st in
      let h := if js_gt (js_add (BBox.height bbox) (BBox.y bbox)) (flow_height st)
               then js_add (BBox.height bbox) (BBox.y bbox)
               else flow_height st in
      mkFlow y w h
  | None => st
  end.

(** [(attrs.key || 'root') + '-' + index]. *)
Definition child_key (attrs : props) (index : nat) : value :=
  js_add (js_add (js_or (get attrs "key") (VStr "root")) (VStr "-"))
         (VNum (num_of_nat index)).

(** The [for] loop of [generateTarget] over [target.children], from
    position [index] on; [resolve] is the recursive call, which receives
    the key assigned just before it. *)
Definition resolve_children
    (resolve : option value -> NodeInstructure -> Offset.t -> NodeInstructure)
    (attrs : props) (lastOffset : Offset.t)
  : list NodeInstructure -> nat -> flow -> list NodeInstructure * flow :=
  fix loop (l : list NodeInstructure) (index : nat) (st : flow) :=
    match l with
    | [] => ([], st)
    | child :: more =>
        let node :=
          resolve (Some (child_key attrs index)) child
                  (Offset.mk (Offset.x lastOffset) (flow_y st)) in
        let '(more, st) := loop more (S index) (advance st node) in
        (node :: more, st)
    end.

(** The block of [generateTarget] guarded by [target.children?.length]:
    the children as the loop leaves them and the final loop state.  Without
    children the enclosing box keeps its initial zero size. *)
Definition resolve_kids
    (resolve : option value -> NodeInstructure -> Offset.t -> NodeInstructure)
    (attrs : props) (lastOffset : Offset.t)
    (children : option (list NodeInstructure))
  : option (list NodeInstructure) * flow :=
  match children with
  | Some ((_ :: _) as l) =>
      let marginTop := get attrs "marginTop" in
      let y := if truthy marginTop
               then js_add (Offset.y lastOffset) marginTop
               else Offset.y lastOffset in
      let '(l, st) :=
        resolve_children resolve attrs lastOffset l 0%nat
                         (mkFlow y (num 0) (num 0)) in
      (Some l, st)
  | _ => (children, mkFlow (Offset.y lastOffset) (num 0) (num 0))
  end.

(** The key written by the caller just before the recursive call. *)
Definition with_key (key : option value) (attrs : props) : props :=
  match key with
  | Some k => assign "key" k attrs
  | None => attrs
  end.

(** [generateTarget] with the write that precedes each recursive call,
    [target.children[index].attrs.key = ...], carried in as [key]: the
    callee performs it on entry.  [None] is a call from outside. *)
Fixpoint resolve (key : option value) (target : NodeInstructure)
    (lastOffset : Offset.t) {struct target} : NodeInstructure :=
  match target with
  | Node type attrs0 children bbox0 rest =>
      let attrs := with_key key attrs0 in
      let '(children, st) := resolve_kids resolve attrs lastOffset children in
      let defaultBbox := BBox.mk (Offset.x lastOffset) (Offset.y lastOffset)
                                 (flow_width st) (flow_height st) in
      let '(bbox, target) :=
        getBBox (Node type attrs children bbox0 rest) lastOffset defaultBbox in
      let target := set_bbox target bbox in
      set_attrs target (spread (node_attrs target) (BBox.to_props bbox))
  end.

Definition generateTarget (target : NodeInstructure) (lastOffset : Offset.t)
  : NodeInstructure :=
  resolve None target lastOffset.

(** The guards [shapeWidth >= 0] and [shapeHeight >= 0]. *)
Definition passes_guard (shape : value) : bool := js_ge shape (num 0).




Definition within (W H : Q) (out : NodeInstructure) : Prop :=
  exists r b, right_edge out = Some r /\ bottom_edge out = Some b
              /\ (r <= W)%Q /\ (b <= H)%Q.

End Runtime.

(* ================================================================= *)
(** ** Diffing: [compareTwoTarget] *)

Inductive Action : Type := same | add | delete | change | restructure.

(** One constructor per object literal returned by [compareTwoTarget];
    a field that the literal does not have reads as [undefined]. *)
Inductive DiffAction : Type :=
| DSameLeaf
| DDelete (val : NodeInstructure) (key : value)
| DAdd (val : NodeInstructure) (type : value)
| DRestructure (nowTarget formerTarget : NodeInstructure) (key : value)
               (children : list DiffAction)
| DChange (val : NodeInstructure) (children : list DiffAction)
          (type key : value)
| DSame (children : list DiffAction) (type key : value).

Definition action (d : DiffAction) : Action :=
  match d with
  | DSameLeaf | DSame _ _ _ => same
  | DDelete _ _ => delete
  | DAdd _ _ => add
  | DRestructure _ _ _ _ => restructure
  | DChange _ _ _ _ => change
  end.

(** [d.type]: [type] is destructured from [nowTarget || {}], so it is
    [undefined] whenever [nowTarget] is absent, and [restructure] has no
    such field. *)
Definition diff_type (d : DiffAction) : value :=
  match d with
  | DAdd _ ty | DChange _ _ ty _ | DSame _ ty _ => ty
  | DSameLeaf | DDelete _ _ | DRestructure _ _ _ _ => VUndef
  end.

Definition diff_key (d : DiffAction) : value :=
  match d with
  | DDelete _ k | DRestructure _ _ k _ | DChange _ _ _ k | DSame _ _ k => k
  | DSameLeaf | DAdd _ _ => VUndef
  end.

(** [d.children]: [None] when the literal has no [children] field. *)
Definition diff_children (d : DiffAction) : option (list DiffAction) :=
  match d with
  | DRestructure _ _ _ c | DChange _ c _ _ | DSame c _ _ => Some c
  | DSameLeaf | DDelete _ _ | DAdd _ _ => None
  end.

(** [n > 0] where [n] may be [undefined]. *)
Definition positive_length (n : option nat) : bool :=
  match n with
  | Some (S _) => true
  | _ => false
  end.

(** [Math.max(a, b)] on two lengths that may be [undefined]: an [undefined]
    argument converts to NaN and makes the result NaN, here [None]. *)
Definition Math_max (a b : option nat) : option nat :=
  match a, b with
  | Some m, Some n => Some (Nat.max m n)
  | _, _ => None
  end.

(** How often [for (index = 0; index < length; index += 1)] runs:
    [index < NaN] is false at once. *)
Definition iterations (length : option nat) : nat :=
  match length with
  | Some n => n
  | None => 0
  end.

(** [compareTwoTarget(undefined, formerTarget)]: nothing is written. *)
Definition compare_absent (formerTarget : option NodeInstructure) : DiffAction :=
  match formerTarget with
  | Some former => DDelete former (get (node_attrs former) "key")
  | None => DSameLeaf
  end.

(** The [some] test on [formerKeys]. *)
Definition attrs_differ (nowAttrs formerAttrs : props) : bool :=
  existsb
    (fun e => negb (strict_eq (get nowAttrs e) (get formerAttrs e))
              || negb (includes (keys nowAttrs) e))
    (filter (fun e => negb (e =? "children")) (keys formerAttrs)).

(** The iterations in which [nowChilren[index]] is [undefined]: the next
    [count] positions of [formerChilren], each compared against absence. *)
Definition compare_rest (formerChilren : list NodeInstructure) (count : nat)
  : list DiffAction :=
  map compare_absent (map (nth_error formerChilren) (seq 0 count)).

(** The [for] loop of [compareTwoTarget] with [count] iterations left,
    over what remains of both arrays; [compare] is the recursive call on a
    present [nowChilren[index]]. *)
Definition compare_children
    (compare : NodeInstructure -> option NodeInstructure
               -> DiffAction * NodeInstructure)
  : list NodeInstructure -> list NodeInstructure -> nat
    -> list DiffAction * list NodeInstructure :=
  fix loop (nowChilren formerChilren : list NodeInstructure) (count : nat)
      {struct nowChilren} :=
    match count with
    | O => ([], nowChilren)
    | S count' =>
        match nowChilren with
        | [] => (compare_rest formerChilren count, [])
        | n :: more =>
            let '(d, n') := compare n (nth_error formerChilren 0) in
            let '(ds, more') := loop more (tl formerChilren) count' in
            (d :: ds, n' :: more')
        end
    end.

(** The block that fills [children]: the guarded loop over both child
    arrays.  It returns the child diffs and [nowTarget.children] as the
    recursive calls leave it. *)
Definition compare_kids
    (compare : NodeInstructure -> option NodeInstructure
               -> DiffAction * NodeInstructure)
    (nowKids : option (list NodeInstructure)) (former : NodeInstructure)
  : list DiffAction * option (list NodeInstructure) :=
  let nowLength := option_map (@List.length _) nowKids in
  if positive_length nowLength || positive_length (children_length former)
  then
    let length := Math_max nowLength (children_length former) in
    let formerChilren :=
      match node_children former with Some l => l | None => [] end in
    match nowKids with
    | Some nowChilren =>
        let '(ds, ns) :=
          compare_children compare nowChilren formerChilren (iterations length) in
        (ds, Some ns)
    | None => (compare_rest formerChilren (iterations length), None)
    end
  else ([], nowKids).

(** [compareTwoTarget(nowTarget, formerTarget)] for a present [nowTarget].
    The call writes [nowTarget.attrs.key] here and in the children it
    visits, so the current tree is returned as the call leaves it; the
    objects stored in the result are references to those same nodes. *)
Fixpoint compare_present (nowTarget : NodeInstructure)
    (formerTarget : option NodeInstructure) {struct nowTarget}
  : DiffAction * NodeInstructure :=
  match nowTarget with
  | Node type attrs0 nowKids bbox rest =>
      let key := match formerTarget with
                 | Some former => get (node_attrs former) "key"
                 | None => VUndef
                 end in
      let attrs := if truthy key then assign "key" key attrs0 else attrs0 in
      match formerTarget with
      | None =>
          let nowTarget := Node type attrs nowKids bbox rest in
          (DAdd nowTarget type, nowTarget)
      | Some former =>
          let '(children, nowKids') :=
            compare_kids compare_present nowKids former in
          let nowTarget := Node type attrs nowKids' bbox rest in
          if negb (strict_eq (node_type former) type) then
            (DRestructure nowTarget former key children, nowTarget)
          else if attrs_differ attrs (node_attrs former) then
            (DChange nowTarget children type key, nowTarget)
          else
            (DSame children type key, nowTarget)
      end
  end.

(** [compareTwoTarget]: an absent argument is [None]. *)
Definition compareTwoTarget (nowTarget formerTarget : option NodeInstructure)
  : DiffAction * option NodeInstructure :=
  match nowTarget with
  | Some now =>
      let '(d, now') := compare_present now formerTarget in (d, Some now')
  | None => (compare_absent formerTarget, None)
  end.

(* ================================================================= *)
(** ** The host surface

    The container and its shapes belong to the rendering library.  The model
    keeps what the patch code relies on: the live [children] array that
    [find] searches, and the sequence of calls made on the host. *)

Record Shape : Type :=
  mkShape { shape_id : nat; shape_type : value; shape_attrs : props }.

(** The [origin] entry of the configuration that [draw] passes along. *)
Record Origin : Type :=
  mkOrigin { origin_bbox : option BBox.t;
             origin_type : value;
             origin_children : option (list NodeInstructure) }.

Record ShapeCfg : Type :=
  mkCfg { cfg_attrs : props; cfg_origin : option Origin; cfg_rest : props }.

Inductive HostCall : Type :=
| CallAddShape (type : value) (cfg : ShapeCfg)
| CallRemoveChild (target : option Shape)
| CallAttr (target : Shape) (attrs : props).

Record Container : Type :=
  mkContainer { shapes : list Shape; fresh : nat; calls : list HostCall }.

(** [container.addShape(type, cfg)]: a new shape at the end of [children]. *)
Definition host_addShape (c : Container) (type : value) (cfg : ShapeCfg)
  : Container * Shape :=
  let shape := mkShape (fresh c) type (cfg_attrs cfg) in
  (mkContainer (shapes c ++ [shape])%list (S (fresh c))
               (calls c ++ [CallAddShape type cfg])%list,
   shape).

(** [container.removeChild(target)].  The call is recorded whatever its
    argument; with [undefined] the children are left as they are. *)
Definition host_removeChild (c : Container) (target : option Shape) : Container :=
  let kept :=
    match target with
    | Some s => filter (fun e => negb (Nat.eqb (shape_id e) (shape_id s))) (shapes c)
    | None => shapes c
    end in
  mkContainer kept (fresh c) (calls c ++ [CallRemoveChild target])%list.

(** [shape.attr(attrs)]: the given attributes are merged into the shape. *)
Definition host_attr (c : Container) (target : Shape) (attrs : props) : Container :=
  let upd e :=
    if Nat.eqb (shape_id e) (shape_id target)
    then mkShape (shape_id e) (shape_type e) (spread (shape_attrs e) attrs)
    else e in
  mkContainer (map upd (shapes c)) (fresh c)
              (calls c ++ [CallAttr target attrs])%list.

(** [children.find(e => e.attrs.key === key)]. *)
Definition find_shape (c : Container) (key : value) : option Shape :=
  find (fun e => strict_eq (get (shape_attrs e) "key") key) (shapes c).

(* ================================================================= *)
(** ** Patching: [draw] and [update] *)

(** [renderTarget] of [draw]; the second component is [keyshape], [None]
    while it is still the group itself. *)
Fixpoint renderTarget (target : NodeInstructure)
    (st : Container * option Shape) {struct target} : Container * option Shape :=
  match target with
  | Node type attrs children bbox rest =>
      let st :=
        if negb (strict_eq type (VStr "group")) then
          let '(group, shape) :=
            host_addShape (fst st) type
              (mkCfg attrs (Some (mkOrigin bbox type children)) rest) in
          (group, if truthy (get rest "keyshape") then Some shape else snd st)
        else st in
      match children with
      | Some l => fold_left (fun st n => renderTarget n st) l st
      | None => st
      end
  end.

(** [draw] from the compiled target on: the host after the calls, the key
    shape, and the cache entry [[target]]. *)
Definition draw (target : NodeInstructure) (group : Container)
  : Container * option Shape * list NodeInstructure :=
  (renderTarget target (group, None), [target]).

(** [addShape] of [update]. *)
Fixpoint addShape (node : NodeInstructure) (container : Container)
    {struct node} : Container :=
  match node with
  | Node type attrs children _ _ =>
      let container :=
        fst (host_addShape container type (mkCfg attrs None [])) in
      match children with
      | Some l => fold_left (fun c e => addShape e c) l container
      | None => container
      end
  end.

(** [delShape] of [update]. *)
Fixpoint delShape (node : NodeInstructure) (container : Container)
    {struct node} : Container :=
  match node with
  | Node _ attrs children _ _ =>
      let targetShape := find_shape container (get attrs "key") in
      let container := host_removeChild container targetShape in
      match children with
      | Some l => fold_left (fun c e => delShape e c) l container
      | None => container
      end
  end.

(** [updateTarget] of [update]. *)
Fixpoint updateTarget (target : DiffAction) (container : Container)
    {struct target} : Container :=
  let container :=
    if negb (strict_eq (diff_type target) (VStr "group")) then
      let targetShape := find_shape container (diff_key target) in
      match target with
      | DChange val _ _ _ =>
          match targetShape with
          | Some shape => host_attr container shape (node_attrs val)
          | None => container
          end
      | DAdd val _ => addShape val container
      | DDelete val _ => delShape val container
      | DRestructure nowTarget formerTarget _ _ =>
          addShape nowTarget (delShape formerTarget container)
      | DSameLeaf | DSame _ _ _ => container
      end
    else container in
  match target with
  | DRestructure _ _ _ children
  | DChange _ children _ _
  | DSame children _ _ =>
      fold_left (fun c n => updateTarget n c) children container
  | DSameLeaf | DDelete _ _ | DAdd _ _ => container
  end.

(** [structures.get(cfg.id).pop()]: the last element, if any. *)
Definition pop (entry : list NodeInstructure)
  : option NodeInstructure * list NodeInstructure :=
  (last (map Some entry) None, removelast entry).

(** [update] from the compiled target on, given the cache entry of the id
    (empty when there was none): the host after the patch and the entry
    after the final [push]. *)
Definition update (target : NodeInstructure) (entry : list NodeInstructure)
    (container : Container) : Container * list NodeInstructure :=
  let '(lastTarget, entry) := pop entry in
  let '(diff, target) := compare_present target lastTarget in
  (updateTarget diff container, (entry ++ [target])%list).

(* ================================================================= *)
(** ** Strings *)

Definition is_space (a : ascii) : bool :=
  let n := nat_of_ascii a in
  (Nat.leb 9 n && Nat.leb n 13) || Nat.eqb n 32.

Definition is_between (lo hi a : ascii) : bool :=
  Nat.leb (nat_of_ascii lo) (nat_of_ascii a)
  && Nat.leb (nat_of_ascii a) (nat_of_ascii hi).

(** The class [\w]. *)
Definition is_word (a : ascii) : bool :=
  is_between "a" "z" a || is_between "A" "Z" a || is_between "0" "9" a
  || Ascii.eqb a "_".

Definition upper (a : ascii) : ascii :=
  if is_between "a" "z" a then ascii_of_nat (nat_of_ascii a - 32) else a.

Definition lower (a : ascii) : ascii :=
  if is_between "A" "Z" a then ascii_of_nat (nat_of_ascii a + 32) else a.

Fixpoint toLowerCase (s : string) : string :=
  match s with
  | EmptyString => EmptyString
  | String a r => String (lower a) (toLowerCase r)
  end.

Fixpoint trimStart (s : string) : string :=
  match s with
  | EmptyString => EmptyString
  | String a r => if is_space a then trimStart r else s
  end.

Fixpoint trimEnd (s : string) : string :=
  match s with
  | EmptyString => EmptyString
  | String a r =>
      let r' := trimEnd r in
      if is_space a && (r' =? "") then EmptyString else String a r'
  end.

Definition trim (s : string) : string := trimEnd (trimStart s).

Fixpoint all_chars (p : ascii -> bool) (s : string) : bool :=
  match s with
  | EmptyString => true
  | String a r => p a && all_chars p r
  end.

Fixpoint has_char (c : ascii) (s : string) : bool :=
  match s with
  | EmptyString => false
  | String a r => Ascii.eqb a c || has_char c r
  end.

(** Put [a] in front of the first piece of a split. *)
Definition push_front (a : ascii) (pieces : list string) : list string :=
  match pieces with
  | [] => [String a EmptyString]
  | h :: t => String a h :: t
  end.

(** [s.split(sep)] for a one-character separator. *)
Fixpoint split_on (sep : ascii) (s : string) : list string :=
  match s with
  | EmptyString => [EmptyString]
  | String a r =>
      if Ascii.eqb a sep then EmptyString :: split_on sep r
      else push_front a (split_on sep r)
  end.

Definition is_delimiter (a b : ascii) : bool :=
  (Ascii.eqb a "{" && Ascii.eqb b "{") || (Ascii.eqb a "}" && Ascii.eqb b "}").

(** [s.split(/{{|}}/g)]: cut at every pair of braces, scanning left to right. *)
Fixpoint split_braces (s : string) : list string :=
  match s with
  | EmptyString => [EmptyString]
  | String a r =>
      match r with
      | String b r' =>
          if is_delimiter a b then EmptyString :: split_braces r'
          else push_front a (split_braces r)
      | EmptyString => [s]
      end
  end.

(** [/^[\w.]+$/.test(s)]. *)
Definition is_path (s : string) : bool :=
  negb (s =? "") && all_chars (fun a => is_word a || Ascii.eqb a ".") s.

Definition capitalize (s : string) : string :=
  match s with
  | EmptyString => EmptyString
  | String a r => String (upper a) r
  end.

(** [keyConvert]: [reduce] without an initial value starts from the first
    part and leaves it as it is. *)
Definition keyConvert (str : string) : string :=
  match split_on "-" str with
  | [] => EmptyString
  | first :: others => fold_left (fun a b => a ++ capitalize b) others first
  end.

(* ================================================================= *)
(** ** Template interpolation: [xmlDataRenderer] *)

Definition nullish (v : value) : bool :=
  match v with VUndef | VNull => true | _ => false end.

(** An array index written the canonical way. *)
Definition index_of_string (k : string) : option nat :=
  match NilZero.uint_of_string k with
  | Some u =>
      let n := Nat.of_uint u in
      if nat_to_string n =? k then Some n else None
  | None => None
  end.

(** [v[k]] over own properties. *)
Definition get_member (v : value) (k : string) : value :=
  match v with
  | VObj _ fields => get fields k
  | VArr _ items =>
      if k =? "length" then VNum (num_of_nat (List.length items))
      else match index_of_string k with
           | Some i => nth i items VUndef
           | None => VUndef
           end
  | VStr s =>
      if k =? "length" then VNum (num_of_nat (String.length s))
      else match index_of_string k with
           | Some i => match String.get i s with
                       | Some a => VStr (String a EmptyString)
                       | None => VUndef
                       end
           | None => VUndef
           end
  | _ => VUndef
  end.

Definition has_own (v : value) (k : string) : bool :=
  match v with
  | VObj _ fields => includes (keys fields) k
  | _ => false
  end.

(** [lodash.get(object, path, defaultValue)] for a path of word characters
    and dots: a path that is itself a property name of [object] is one key,
    any other is cut at the dots; the walk stops at [undefined] or [null]. *)
Definition castPath (path : string) (object : value) : list string :=
  if negb (has_char "." path) || has_own object path then [path]
  else split_on "." path.

Fixpoint baseGet (object : value) (path : list string) : value :=
  match path with
  | [] => object
  | k :: more => if nullish object then VUndef else baseGet (get_member object k) more
  end.

Definition lodash_get (object : value) (path : string) (defaultValue : value) : value :=
  let result := if nullish object then VUndef
                else baseGet object (castPath path object) in
  match result with
  | VUndef => defaultValue
  | _ => result
  end.

Section Renderer.

Variable NumberToString : number -> string.

(** [pieces.join('')]: [undefined] and [null] contribute nothing. *)
Definition join_empty (pieces : list value) : string :=
  String.concat "" (map (fun v => if nullish v then "" else ToString NumberToString v) pieces).

(** What [map] does to one piece of the split template. *)
Definition render_piece (data : value) (text : string) : value :=
  if is_path (trim text) then lodash_get data (trim text) (VStr text)
  else VStr text.

Definition xmlDataRenderer (xml : string) (data : value) : string :=
  join_empty (map (render_piece data) (split_braces xml)).

End Renderer.

(* ================================================================= *)
(** ** Building the tree: [parseXML] *)

Inductive HTMLElement : Type :=
| Element (tagName : option string) (attributes : list (string * string))
          (innerText : string) (children : list HTMLElement).

Inductive result (A : Type) : Type :=
| Ok (a : A)
| Throw (e : string).
Arguments Ok {A} a.
Arguments Throw {A} e.

(** The own enumerable properties that [{ ...v }] copies. *)
Definition spread_value (v : value) : props :=
  match v with
  | VObj _ fields => fields
  | VArr _ items =>
      combine (map nat_to_string (seq 0 (List.length items))) items
  | VStr s =>
      combine (map nat_to_string (seq 0 (String.length s)))
              (map (fun a => VStr (String a EmptyString)) (list_ascii_of_string s))
  | _ => []
  end.

Definition drop_keys (ks : list string) (ps : props) : props :=
  filter (fun kv => negb (includes ks (fst kv))) ps.

Section Parsing.

(** [JSON5.parse], which either returns a value or throws. *)
Variable JSON5_parse : string -> result value.

(** The body of the [forEach] over the attribute names.  The state is the
    local [attrs] and the properties written on [rst] so far. *)
Definition parse_attribute (st : props * props) (k val : string)
  : result (props * props) :=
  let '(attrs, rst) := st in
  let key := keyConvert k in
  let attempt :=
    if (key =? "style") || (key =? "attrs") then
      match JSON5_parse val with
      | Ok style => Ok (spread attrs (spread_value style), rst)
      | Throw e => Throw e
      end
    else
      match JSON5_parse val with
      | Ok v => Ok (attrs, assign key v rst)
      | Throw e => Throw e
      end in
  match attempt with
  | Ok st' => Ok st'
  | Throw e =>
      if key =? "style" then Throw e
      else Ok (attrs, assign key (VStr val) rst)
  end.

Fixpoint parse_attributes (st : props * props) (l : list (string * string))
  : result (props * props) :=
  match l with
  | [] => Ok st
  | (k, val) :: more =>
      match parse_attribute st k val with
      | Ok st' => parse_attributes st' more
      | Throw e => Throw e
      end
  end.

(** [parseXML].  Attribute names are distinct in a DOM element, so the
    loop runs over the name and value pairs.  What [rst[key] = ...] writes
    is kept in [rest], with these exceptions: [type] is read back as the
    type of the node; [attrs] is overwritten by the final [rst.attrs = attrs];
    [bbox] is overwritten by layout; [children] is overwritten when the
    element has child elements.  Two attribute names are outside of what
    [rest] stands for: [children] on an element without child elements,
    which the later passes would read as the children of the node, and
    [__proto__], which replaces the prototype of [rst]; the statements that
    read [children] exclude both. *)
Fixpoint parseXML (xml : HTMLElement) : result NodeInstructure :=
  match xml with
  | Element tag attributes innerText kids =>
      let parsed :=
        (fix each (l : list HTMLElement) : result (list NodeInstructure) :=
           match l with
           | [] => Ok []
           | e :: more =>
               match parseXML e with
               | Throw ex => Throw ex
               | Ok n =>
                   match each more with
                   | Throw ex => Throw ex
                   | Ok ns => Ok (n :: ns)
                   end
               end
           end) kids in
      match parsed with
      | Throw ex => Throw ex
      | Ok children =>
          let tagName :=
            match tag with
            | Some name => if name =? "" then "group" else toLowerCase name
            | None => "group"
            end in
          let attrs :=
            if tagName =? "text" then [("text", VStr innerText)] else [] in
          match parse_attributes (attrs, [("type", VStr tagName)]) attributes with
          | Throw ex => Throw ex
          | Ok (attrs, rst) =>
              Ok (match children with
                  | [] =>
                      Node (get rst "type") attrs None None
                           (drop_keys ["type"; "attrs"; "bbox"] rst)
                  | _ :: _ =>
                      Node (get rst "type") attrs (Some children) None
                           (drop_keys ["type"; "attrs"; "bbox"; "children"] rst)
                  end)
          end
      end
  end.

End Parsing.

(* ================================================================= *)
(** ** A reference runtime

    Instances of the runtime conversions and of [JSON5.parse] to evaluate
    the definitions on concrete inputs.  They agree with the real ones on
    the inputs used below: integers print in decimal, strings of decimal
    digits read as integers, and the literals [true], [false], [null] and
    the integers parse as themselves. *)

Definition int_NumberToString (n : number) : string :=
  match n with
  | NaN => "NaN"
  | Fin q =>
      let r := Qred q in
      let whole := NilZero.string_of_int (Z.to_int (Qnum r)) in
      if Pos.eqb (Qden r) 1 then whole
      else whole ++ "/" ++ NilZero.string_of_uint (Pos.to_uint (Qden r))
  end.

Definition int_StringToNumber (s : string) : number :=
  let t := trim s in
  if t =? "" then Fin 0
  else match NilZero.int_of_string t with
       | Some i => num_of_Z (Z.of_int i)
       | None => NaN
       end.

Definition literal_parse (s : string) : result value :=
  if s =? "true" then Ok (VBool true)
  else if s =? "false" then Ok (VBool false)
  else if s =? "null" then Ok VNull
  else match NilZero.int_of_string s with
       | Some i => Ok (VNum (num_of_Z (Z.of_int i)))
       | None => Throw "SyntaxError"
       end.

(* ================================================================= *)
(** ** Vocabulary of the properties *)

(** The subtree relation: [g] is [n] or sits below one of its children. *)
Inductive subnode (g : NodeInstructure) : NodeInstructure -> Prop :=
| subnode_here : subnode g g
| subnode_below type attrs l bbox rest c :
    In c l -> subnode g c -> subnode g (Node type attrs (Some l) bbox rest).

Definition extends (c c' : Container) : Prop :=
  exists more, calls c' = (calls c ++ more)%list.

(** [key_only a b]: [b] is [a] up to the value of [attrs.key], node by node. *)
Inductive key_only : NodeInstructure -> NodeInstructure -> Prop :=
| key_only_leaf type attrs attrs' bbox rest :
    (forall k, k <> "key" -> lookup k attrs' = lookup k attrs) ->
    key_only (Node type attrs None bbox rest) (Node type attrs' None bbox rest)
| key_only_inner type attrs attrs' l l' bbox rest :
    (forall k, k <> "key" -> lookup k attrs' = lookup k attrs) ->
    Forall2 key_only l l' ->
    key_only (Node type attrs (Some l) bbox rest)
             (Node type attrs' (Some l') bbox rest).

(** [copy_of v v']: [v'] is a deep-equal copy of [v]; objects and arrays
    may live in other heap cells. *)
Inductive copy_of : value -> value -> Prop :=
| copy_undef : copy_of VUndef VUndef
| copy_null : copy_of VNull VNull
| copy_bool b : copy_of (VBool b) (VBool b)
| copy_num n : copy_of (VNum n) (VNum n)
| copy_str s : copy_of (VStr s) (VStr s)
| copy_obj r r' fields fields' :
    Forall2 (fun p p' => fst p = fst p' /\ copy_of (snd p) (snd p')) fields fields' ->
    copy_of (VObj r fields) (VObj r' fields')
| copy_arr r r' items items' :
    Forall2 copy_of items items' ->
    copy_of (VArr r items) (VArr r' items').

Definition props_copy (ps ps' : props) : Prop :=
  Forall2 (fun p p' => fst p = fst p' /\ copy_of (snd p) (snd p')) ps ps'.

(** The fields that the diff reads: type, attributes and children. *)
Definition node_copy : NodeInstructure -> NodeInstructure -> Prop :=
  paired (fun a b => copy_of (node_type a) (node_type b)
                     /\ props_copy (node_attrs a) (node_attrs b)).

(** A value that is strictly equal to itself and to its copies: anything
    but an object, an array or NaN. *)
Definition comparable (v : value) : bool :=
  match v with
  | VObj _ _ | VArr _ _ | VNum NaN => false
  | _ => true
  end.

Definition comparable_node (n : NodeInstructure) : Prop :=
  comparable (node_type n) = true
  /\ Forall (fun p => comparable (snd p) = true) (node_attrs n).

(** [same] at every node of a diff tree. *)
Inductive all_same : DiffAction -> Prop :=
| all_same_leaf : all_same DSameLeaf
| all_same_node children type key :
    Forall all_same children -> all_same (DSame children type key).

(* ================================================================= *)
(** ** Sample inputs *)

Definition empty_container : Container := mkContainer [] 0 [].

Definition group_in_rect : NodeInstructure :=
  Node (VStr "rect") []
       (Some [Node (VStr "group") [("key", VStr "root-0")] None None []])
       None [].

Definition lone_rect : NodeInstructure := Node (VStr "rect") [] None None [].

Definition keyless_rect : NodeInstructure :=
  Node (VStr "rect") [("width", num 10)] None None [].

Definition keyed_rect : NodeInstructure :=
  Node (VStr "rect") [("width", num 10); ("key", VStr "root-0")] None None [].

Definition origin : Offset.t := Offset.mk (num 0) (num 0).

Definition wide_child : NodeInstructure :=
  Node (VStr "rect") [("width", num 100); ("height", num 5)] None None [].

Definition narrow_parent : NodeInstructure :=
  Node (VStr "rect") [("width", num 10)] (Some [wide_child]) None [].




Definition styled_rect (ref : nat) : NodeInstructure :=
  Node (VStr "rect") [("lineDash", VArr ref [num 4; num 4])] None None [].

Definition plain_tree : NodeInstructure :=
  Node (VStr "group") [("marginTop", num 3)]
       (Some [Node (VStr "rect") [("width", num 10); ("fill", VStr "#000")]
                   None None []])
       None [].

(* ================================================================= *)
(** ** Where the runtime computes what the model computes

    Numbers are exact in the model and doubles at run time; conversions
    are total in the model and may run into an object that cannot be
    converted at run time; strings are bytes in the model and UTF-16 at run
    time.  The statements about computed numbers, converted values and
    text carry the conditions below, under which the two agree. *)

(** A value that is converted without looking into an object. *)
Definition primitive (v : value) : bool :=
  match v with
  | VObj _ _ | VArr _ _ => false
  | _ => true
  end.

Definition is_ascii (a : ascii) : bool := Nat.ltb (nat_of_ascii a) 128.

(** Text on which bytes and UTF-16 units coincide, and with them [length],
    [trim], the class [\w] and the case conversions. *)
Definition ascii_only (s : string) : bool := all_chars is_ascii s.

(** An integer of magnitude at most 2^50.  A sum of two such integers, and
    any product that is again one, is computed without rounding. *)
Definition safe_integer (v : value) : bool :=
  match v with
  | VNum (Fin q) =>
      Pos.eqb (Qden (Qred q)) 1 && Z.leb (Z.abs (Qnum (Qred q))) (2 ^ 50)
  | _ => false
  end.

Definition unset_or_safe (v : value) : bool :=
  match v with
  | VUndef => true
  | _ => safe_integer v
  end.

Definition unset_or_ascii (v : value) : bool :=
  match v with
  | VUndef => true
  | VStr s => ascii_only s
  | _ => false
  end.

(** The attributes that layout computes with. *)
Definition geometry_names : list string :=
  ["r"; "rx"; "ry"; "length"; "width"; "height"; "marginTop"; "marginLeft"].

(** Each of them is unset or a safe integer, and [text] is unset or ASCII
    text. *)
Definition exact_geometry (n : NodeInstructure) : bool :=
  forallb (fun k => unset_or_safe (get (node_attrs n) k)) geometry_names
  && unset_or_ascii (get (node_attrs n) "text").

Definition safe_offset (o : Offset.t) : bool :=
  safe_integer (Offset.x o) && safe_integer (Offset.y o).



(** The previous node that a diff action holds. *)
Definition diff_former (d : DiffAction) : option NodeInstructure :=
  match d with
  | DDelete val _ => Some val
  | DRestructure _ formerTarget _ _ => Some formerTarget
  | DSameLeaf | DAdd _ _ | DChange _ _ _ _ | DSame _ _ _ => None
  end.

(* ================================================================= *)
(** ** Vocabulary of the further properties *)

(** [P] holds at every element of the DOM tree. *)
Inductive Forall_elements (P : HTMLElement -> Prop) : HTMLElement -> Prop :=
| Forall_elements_intro tag attributes innerText kids :
    P (Element tag attributes innerText kids) ->
    Forall (Forall_elements P) kids ->
    Forall_elements P (Element tag attributes innerText kids).

Definition element_attributes (xml : HTMLElement) : list (string * string) :=
  match xml with Element _ attributes _ _ => attributes end.

(** No attribute of the element converts to the key [style]. *)
Definition no_style_attribute (xml : HTMLElement) : Prop :=
  Forall (fun kv => keyConvert (fst kv) <> "style") (element_attributes xml).

(** No attribute converts to one of the reserved keys [style] and [attrs]. *)
Definition no_reserved_attribute (attributes : list (string * string)) : Prop :=
  Forall (fun kv => keyConvert (fst kv) <> "style"
                    /\ keyConvert (fst kv) <> "attrs") attributes.

(** No attribute of the list converts to the key [key]. *)
Definition no_attribute (key : string) (attributes : list (string * string))
  : Prop :=
  Forall (fun kv => keyConvert (fst kv) <> key) attributes.

(** The tag name as [parseXML] computes it. *)
Definition tag_name (tag : option string) : string :=
  match tag with
  | Some name => if name =? "" then "group" else toLowerCase name
  | None => "group"
  end.

(** The [map] of [parseXML] over the child elements: the first child that
    throws ends it. *)
Definition parse_children (JSON5_parse : string -> result value)
  : list HTMLElement -> result (list NodeInstructure) :=
  fix each (l : list HTMLElement) : result (list NodeInstructure) :=
    match l with
    | [] => Ok []
    | e :: more =>
        match parseXML JSON5_parse e with
        | Throw ex => Throw ex
        | Ok n =>
            match each more with
            | Throw ex => Throw ex
            | Ok ns => Ok (n :: ns)
            end
        end
    end.

(** The names that every object inherits from [Object.prototype]; the
    objects of the model hold own properties only, so a lookup of one of
    these names is outside of it. *)
Definition inherited (k : string) : bool :=
  includes ["constructor"; "hasOwnProperty"; "isPrototypeOf";
            "propertyIsEnumerable"; "toLocaleString"; "toString"; "valueOf";
            "__proto__"; "__defineGetter__"; "__defineSetter__";
            "__lookupGetter__"; "__lookupSetter__"] k.

(** A margin as the amount it adds: nothing unless it is a finite number. *)
Definition margin (v : value) : Q :=
  match v with
  | VNum (Fin m) => m
  | _ => 0%Q
  end.

(** The attribute names of a node are distinct, as those of any object. *)
Definition distinct_names (n : NodeInstructure) : Prop :=
  NoDup (keys (node_attrs n)).

(** The rule of the keys: a child at position [j] carries
    [(attrs.key || 'root') + '-' + j] of its parent. *)
Definition keyed_children
    (StringToNumber : string -> number) (NumberToString : number -> string)
    (out : NodeInstructure) : Prop :=
  forall outs j c,
    node_children out = Some outs -> nth_error outs j = Some c ->
    get (node_attrs c) "key"
    = child_key StringToNumber NumberToString (node_attrs out) j.

(** Two nodes of the same type, as [compareTwoTarget] tests it. *)
Definition same_type (now former : NodeInstructure) : Prop :=
  strict_eq (node_type former) (node_type now) = true.

(** A diff tree made of [same] and [change] only. *)
Inductive only_updates : DiffAction -> Prop :=
| only_updates_leaf : only_updates DSameLeaf
| only_updates_same children type key :
    Forall only_updates children -> only_updates (DSame children type key)
| only_updates_change val children type key :
    Forall only_updates children -> only_updates (DChange val children type key).

Definition is_attr_call (call : HostCall) : Prop :=
  exists target attrs, call = CallAttr target attrs.

Definition is_remove_call (call : HostCall) : Prop :=
  exists target, call = CallRemoveChild target.

(** A call that creates a shape of a type other than [group]. *)
Definition is_drawable_add (call : HostCall) : Prop :=
  exists type cfg,
    call = CallAddShape type cfg /\ strict_eq type (VStr "group") = false.

Definition is_add_call (call : HostCall) : Prop :=
  exists type cfg, call = CallAddShape type cfg.

(** The number of nodes of a tree. *)
Fixpoint node_count (n : NodeInstructure) : nat :=
  match n with
  | Node _ _ children _ _ =>
      S (match children with
         | Some l => list_sum (map node_count l)
         | None => 0
         end)
  end.

(** The number of nodes whose type is not [group]. *)
Fixpoint drawable_count (n : NodeInstructure) : nat :=
  match n with
  | Node type _ children _ _ =>
      ((if strict_eq type (VStr "group") then 0 else 1)
       + match children with
         | Some l => list_sum (map drawable_count l)
         | None => 0
         end)%nat
  end.

(** What a pass adds to the log of host calls: [n] calls, each one a [P]. *)
Definition logged (P : HostCall -> Prop) (n : nat) (c c' : Container) : Prop :=
  exists more,
    calls c' = (calls c ++ more)%list /\ Forall P more /\ List.length more = n.

(** A container that holds the one shape drawn for [keyed_rect]. *)
Definition drawn_container : Container :=
  mkContainer [mkShape 0 (VStr "rect") [("width", num 10); ("key", VStr "root-0")]]
              1 [].

(* ================================================================= *)
(** * Properties *)

(** ** Induction over trees *)

Lemma NodeInstructure_tree_ind (P : NodeInstructure -> Prop) :
  (forall type attrs children bbox rest,
      match children with Some l => Forall P l | None => True end ->
      P (Node type attrs children bbox rest)) ->
  forall n, P n.
Proof.
  intros step.
  fix self 1.
  intros [type attrs children bbox rest].
  apply step.
  destruct children as [l|]; [|exact I].
  induction l as [|c l IH]; constructor.
  - apply self.
  - exact IH.
Qed.

Lemma DiffAction_tree_ind (P : DiffAction -> Prop) :
  P DSameLeaf ->
  (forall val key, P (DDelete val key)) ->
  (forall val type, P (DAdd val type)) ->
  (forall n f key children, Forall P children -> P (DRestructure n f key children)) ->
  (forall val children type key, Forall P children -> P (DChange val children type key)) ->
  (forall children type key, Forall P children -> P (DSame children type key)) ->
  forall d, P d.
Proof.
  intros Hleaf Hdel Hadd Hres Hchg Hsame.
  fix self 1.
  intros [ | val key | val type | n f key children
         | val children type key | children type key].
  - exact Hleaf.
  - apply Hdel.
  - apply Hadd.
  - apply Hres. induction children; constructor; [apply self | assumption].
  - apply Hchg. induction children; constructor; [apply self | assumption].
  - apply Hsame. induction children; constructor; [apply self | assumption].
Qed.

(** ** The host only ever gains calls *)

Arguments host_addShape : simpl never.
Arguments host_removeChild : simpl never.
Arguments host_attr : simpl never.
Arguments find_shape : simpl never.

Lemma extends_refl c : extends c c.
Proof. exists []. now rewrite app_nil_r. Qed.

Lemma extends_trans a b c : extends a b -> extends b c -> extends a c.
Proof.
  intros [m Hm] [m' Hm']. exists (m ++ m')%list.
  now rewrite Hm', Hm, app_assoc.
Qed.

Lemma extends_In a b call : extends a b -> In call (calls a) -> In call (calls b).
Proof. intros [m ->] H. apply in_or_app. now left. Qed.

Lemma extends_addShape_host c type cfg : extends c (fst (host_addShape c type cfg)).
Proof. now exists [CallAddShape type cfg]. Qed.

Lemma extends_removeChild c target : extends c (host_removeChild c target).
Proof. now exists [CallRemoveChild target]. Qed.

Lemma extends_attr c target attrs : extends c (host_attr c target attrs).
Proof. now exists [CallAttr target attrs]. Qed.

Lemma extends_fold {A} (f : Container -> A -> Container) (l : list A) :
  Forall (fun x => forall c, extends c (f c x)) l ->
  forall c, extends c (fold_left f l c).
Proof.
  induction 1 as [|x l Hx _ IH]; intros c; simpl.
  - apply extends_refl.
  - eapply extends_trans; [apply Hx | apply IH].
Qed.

Lemma extends_addShape node : forall c, extends c (addShape node c).
Proof.
  induction node as [type attrs children bbox rest IH] using NodeInstructure_tree_ind.
  intros c. cbn [addShape].
  eapply extends_trans; [apply (extends_addShape_host c type (mkCfg attrs None []))|].
  destruct children as [l|]; [|apply extends_refl].
  apply (extends_fold (fun c e => addShape e c)). exact IH.
Qed.

Lemma extends_delShape node : forall c, extends c (delShape node c).
Proof.
  induction node as [type attrs children bbox rest IH] using NodeInstructure_tree_ind.
  intros c. cbn [delShape].
  eapply extends_trans;
    [apply (extends_removeChild c (find_shape c (get attrs "key")))|].
  destruct children as [l|]; [|apply extends_refl].
  apply (extends_fold (fun c e => delShape e c)). exact IH.
Qed.

Lemma extends_updateTarget d : forall c, extends c (updateTarget d c).
Proof.
  induction d as [ | val key | val type | n f key children IH
                 | val children type key IH | children type key IH]
    using DiffAction_tree_ind; intros c; cbn [updateTarget diff_type diff_key].
  - destruct (negb _); apply extends_refl.
  - destruct (negb _); [apply extends_delShape | apply extends_refl].
  - destruct (negb _); [apply extends_addShape | apply extends_refl].
  - eapply extends_trans;
      [|apply (extends_fold (fun c n => updateTarget n c)); exact IH].
    destruct (negb _); [|apply extends_refl].
    eapply extends_trans; [apply extends_delShape | apply extends_addShape].
  - eapply extends_trans;
      [|apply (extends_fold (fun c n => updateTarget n c)); exact IH].
    destruct (negb _); [|apply extends_refl].
    destruct (find_shape _ _); [apply extends_attr | apply extends_refl].
  - eapply extends_trans;
      [|apply (extends_fold (fun c n => updateTarget n c)); exact IH].
    destruct (negb _); apply extends_refl.
Qed.

(** A call made while folding over a list stays in the log. *)
Lemma fold_keeps_call {A} (f : Container -> A -> Container) (call : HostCall)
    (l : list A) (x : A) :
  (forall y c, extends c (f c y)) ->
  In x l -> (forall c, In call (calls (f c x))) ->
  forall c, In call (calls (fold_left f l c)).
Proof.
  intros Hext Hin Hx.
  induction l as [|y l IH]; [contradiction|].
  intros c. simpl. destruct Hin as [->|Hin].
  - eapply extends_In; [|apply Hx].
    apply extends_fold. apply Forall_forall. intros; apply Hext.
  - now apply IH.
Qed.

(** [addShape] asks the host for a shape for every node of the subtree,
    whatever its type. *)
Lemma addShape_every_node g node :
  subnode g node ->
  forall c,
    In (CallAddShape (node_type g) (mkCfg (node_attrs g) None []))
       (calls (addShape node c)).
Proof.
  induction 1 as [|type attrs l bbox rest child Hin Hsub IH]; intros c.
  - destruct g as [type attrs children bbox rest]. cbn [addShape node_type node_attrs].
    apply extends_In with (a := fst (host_addShape c type (mkCfg attrs None []))).
    + destruct children as [l|]; [|apply extends_refl].
      apply (extends_fold (fun c e => addShape e c)).
      apply Forall_forall. intros; apply extends_addShape.
    + unfold host_addShape. simpl. apply in_or_app. right. now left.
  - cbn [addShape].
    apply (fold_keeps_call (fun c e => addShape e c) _ l child); auto.
    intros; apply extends_addShape.
Qed.

(** ** The patch pass and [group] nodes *)

(** The draw path never asks the host for a [group] shape. *)
Lemma renderTarget_skips_group target :
  forall st cfg,
    ~ In (CallAddShape (VStr "group") cfg) (calls (fst st)) ->
    ~ In (CallAddShape (VStr "group") cfg) (calls (fst (renderTarget target st))).
Proof.
  induction target as [type attrs children bbox rest IH]
    using NodeInstructure_tree_ind.
  intros st cfg Hst. cbn [renderTarget].
  set (st' := if negb (strict_eq type (VStr "group")) then _ else st).
  assert (Hst' : ~ In (CallAddShape (VStr "group") cfg) (calls (fst st'))).
  { subst st'. destruct (strict_eq type (VStr "group")) eqn:Hty; simpl; auto.
    unfold host_addShape. simpl. intros Hin.
    apply in_app_or in Hin as [Hin|[Heq|[]]]; [now apply Hst|].
    injection Heq as Heq _. subst type. discriminate Hty. }
  clearbody st'. clear Hst.
  destruct children as [l|]; auto.
  revert st' Hst'.
  induction IH as [|child l Hchild _ IHl]; intros st' Hst'; simpl; auto.
Qed.

(** An [add] whose own type is [group] is skipped with its whole subtree. *)
Lemma update_skips_added_group val type c :
  strict_eq type (VStr "group") = true ->
  updateTarget (DAdd val type) c = c.
Proof. intros H. cbn [updateTarget diff_type]. now rewrite H. Qed.

(** C4 (as the code behaves) — the shape creation of the update path does
    not skip [group] nodes: when an [add] or [restructure] action brings in a
    subtree, [addShape] asks the host for a shape for every node [g] of that
    subtree, also when [g] has type [group]. Only an [add] whose own diff
    type is [group] is skipped, with its whole subtree. *)
Theorem update_creates_group_shapes
    (val g : NodeInstructure) (type : value) (c : Container) :
  strict_eq type (VStr "group") = false ->
  subnode g val ->
  node_type g = VStr "group" ->
  In (CallAddShape (VStr "group") (mkCfg (node_attrs g) None []))
     (calls (updateTarget (DAdd val type) c))
  /\ forall former key children,
      In (CallAddShape (VStr "group") (mkCfg (node_attrs g) None []))
         (calls (updateTarget (DRestructure val former key children) c)).
Proof.
  intros Hty Hsub Hg. rewrite <- Hg. split.
  - cbn [updateTarget diff_type]. rewrite Hty. cbn [negb].
    now apply addShape_every_node.
  - intros former key children. cbn [updateTarget diff_type].
    eapply extends_In.
    + apply (extends_fold (fun c n => updateTarget n c)).
      apply Forall_forall. intros; apply extends_updateTarget.
    + cbn [strict_eq negb]. now apply addShape_every_node.
Qed.

Lemma update_creates_group_shapes_witness :
  In (CallAddShape (VStr "group") (mkCfg [("key", VStr "root-0")] None []))
     (calls (updateTarget (DAdd group_in_rect (VStr "rect")) empty_container)).
Proof.
  apply (update_creates_group_shapes group_in_rect
           (Node (VStr "group") [("key", VStr "root-0")] None None [])
           (VStr "rect") empty_container).
  - reflexivity.
  - eapply subnode_below; [left; reflexivity | apply subnode_here].
  - reflexivity.
Defined.

(** ** The patch pass and missing shapes *)

Lemma delShape_first_call node c :
  In (CallRemoveChild (find_shape c (get (node_attrs node) "key")))
     (calls (delShape node c)).
Proof.
  destruct node as [type attrs children bbox rest]. cbn [delShape node_attrs].
  apply extends_In
    with (a := host_removeChild c (find_shape c (get attrs "key"))).
  - destruct children as [l|]; [|apply extends_refl].
    apply (extends_fold (fun c e => delShape e c)).
    apply Forall_forall. intros; apply extends_delShape.
  - unfold host_removeChild. simpl. apply in_or_app. right. now left.
Qed.

(** C6 (as the code behaves) — when no shape carries the key, a [change]
    leaves the host untouched, but a [delete] still calls
    [container.removeChild], handing it [undefined]. *)
Theorem missing_shape_delete_still_calls_host
    (val : NodeInstructure) (type : value) (c : Container) :
  find_shape c (get (node_attrs val) "key") = None ->
  In (CallRemoveChild None)
     (calls (updateTarget (DDelete val (get (node_attrs val) "key")) c))
  /\ updateTarget (DChange val [] type (get (node_attrs val) "key")) c = c.
Proof.
  intros Hfind. split.
  - cbn [updateTarget diff_type strict_eq negb]. rewrite <- Hfind.
    apply delShape_first_call.
  - cbn [updateTarget diff_type diff_key fold_left]. rewrite Hfind.
    now destruct (negb _).
Qed.

Lemma missing_shape_delete_still_calls_host_witness :
  In (CallRemoveChild None)
     (calls (updateTarget
               (DDelete (Node (VStr "rect") [("key", VStr "root-0")] None None [])
                        (VStr "root-0"))
               empty_container)).
Proof.
  apply (missing_shape_delete_still_calls_host
           (Node (VStr "rect") [("key", VStr "root-0")] None None [])
           (VStr "rect") empty_container).
  reflexivity.
Defined.

(** ** Children of a diff *)

Lemma compare_present_children now former :
  diff_children (fst (compare_present now (Some former)))
  = Some (fst (compare_kids compare_present (node_children now) former)).
Proof.
  destruct now as [type attrs nowKids bbox rest].
  cbn [compare_present node_children].
  destruct (compare_kids compare_present nowKids former) as [children nowKids'].
  destruct (negb _); [reflexivity|].
  destruct (attrs_differ _ _); reflexivity.
Qed.

Lemma compareTwoTarget_present now former :
  fst (compareTwoTarget (Some now) former) = fst (compare_present now former).
Proof.
  unfold compareTwoTarget. now destruct (compare_present now former).
Qed.

(** C3 (as the code behaves) — when the [children] field is missing on
    one side, [Math.max] receives [undefined], the loop bound is NaN and no
    iteration runs: the children diff list is empty however many children
    the other side has. *)
Theorem absent_children_are_not_padded (now former : NodeInstructure) :
  node_children now = None \/ node_children former = None ->
  diff_children (fst (compareTwoTarget (Some now) (Some former))) = Some [].
Proof.
  intros Habsent.
  rewrite compareTwoTarget_present, compare_present_children. f_equal.
  unfold compare_kids, children_length.
  destruct (node_children now) as [nowChilren|],
           (node_children former) as [formerChilren|];
    try (destruct Habsent; discriminate);
    cbn [option_map Math_max iterations].
  - destruct (positive_length _ || positive_length _); [|reflexivity].
    destruct nowChilren; reflexivity.
  - now destruct (positive_length _ || positive_length _).
  - now destruct (positive_length _ || positive_length _).
Qed.

Lemma absent_children_are_not_padded_witness :
  diff_children
    (fst (compareTwoTarget
            (Some (Node (VStr "rect") [] (Some [lone_rect]) None []))
            (Some lone_rect)))
  = Some [].
Proof.
  apply absent_children_are_not_padded. right. reflexivity.
Defined.

(** Where both sides do have a [children] array, every position up to the
    longer length is compared. *)
Lemma compare_children_length compare :
  forall nowChilren formerChilren count,
    List.length (fst (compare_children compare nowChilren formerChilren count))
    = count.
Proof.
  induction nowChilren as [|n more IH]; intros formerChilren [|count]; simpl; auto.
  - unfold compare_rest. now rewrite !length_map, length_seq.
  - destruct (compare n _) as [d n'].
    specialize (IH (tl formerChilren) count).
    destruct (compare_children compare more (tl formerChilren) count) as [ds more'].
    simpl in *. now rewrite IH.
Qed.

Lemma present_children_are_padded now former nowChilren formerChilren :
  node_children now = Some nowChilren ->
  node_children former = Some formerChilren ->
  exists children,
    diff_children (fst (compareTwoTarget (Some now) (Some former)))
    = Some children
    /\ List.length children
       = Nat.max (List.length nowChilren) (List.length formerChilren).
Proof.
  intros Hnow Hformer.
  eexists. split; [rewrite compareTwoTarget_present; apply compare_present_children|].
  unfold compare_kids, children_length. rewrite Hnow, Hformer.
  cbn [option_map Math_max iterations].
  destruct (positive_length _ || positive_length _) eqn:Hpos.
  - pose proof (compare_children_length compare_present nowChilren formerChilren
                  (Nat.max (List.length nowChilren) (List.length formerChilren)))
      as Hlen.
    destruct (compare_children _ _ _ _) as [ds ns]. exact Hlen.
  - apply orb_false_iff in Hpos as [H1 H2].
    destruct nowChilren, formerChilren; try discriminate. reflexivity.
Qed.

(** ** Reserved attributes of [parseXML] *)

(** C1 (as the code behaves) — the two reserved names are not treated
    alike: a [style] value that does not parse makes [parseXML] throw, but
    the same value under [attrs] is swallowed by the [catch] and the node is
    built, without any error and without the raw string. *)
Theorem attrs_parse_failure_is_swallowed
    (JSON5_parse : string -> result value) (tag : option string)
    (val innerText e : string) :
  JSON5_parse val = Throw e ->
  (exists node,
      parseXML JSON5_parse (Element tag [("attrs", val)] innerText []) = Ok node
      /\ node_rest node = [])
  /\ parseXML JSON5_parse (Element tag [("style", val)] innerText []) = Throw e.
Proof.
  intros Hfail. split.
  - cbn. rewrite Hfail. cbn. eexists. split; reflexivity.
  - cbn. rewrite Hfail. reflexivity.
Qed.

Lemma attrs_parse_failure_is_swallowed_witness :
  (exists node,
      parseXML literal_parse (Element (Some "RECT") [("attrs", "{r:")] "" [])
      = Ok node /\ node_rest node = [])
  /\ parseXML literal_parse (Element (Some "RECT") [("style", "{r:")] "" [])
     = Throw "SyntaxError".
Proof.
  apply (attrs_parse_failure_is_swallowed literal_parse (Some "RECT") "{r:" ""
                                          "SyntaxError").
  reflexivity.
Defined.

(** ** Interpolation *)

Lemma split_braces_plain xml :
  has_char "{" xml = false -> has_char "}" xml = false ->
  split_braces xml = [xml].
Proof.
  induction xml as [|a r IH]; intros Hopen Hclose; [reflexivity|].
  cbn [has_char] in Hopen, Hclose.
  apply orb_false_iff in Hopen as [Ha Hopen], Hclose as [Ha' Hclose].
  cbn [split_braces]. destruct r as [|b r']; [reflexivity|].
  unfold is_delimiter. rewrite Ha, Ha'. cbn [andb orb].
  now rewrite (IH Hopen Hclose).
Qed.

(** C9 (as the code behaves) — every piece of the split template goes
    through the same test, so text that stands outside any pair of braces
    is looked up in the data as well: a template without a single token,
    made of word characters and dots, is replaced by the data found under
    that path. *)
Theorem text_outside_braces_is_looked_up
    (NumberToString : number -> string) (xml : string) (data : value) (v : string) :
  has_char "{" xml = false ->
  has_char "}" xml = false ->
  is_path (trim xml) = true ->
  lodash_get data (trim xml) (VStr xml) = VStr v ->
  xmlDataRenderer NumberToString xml data = v.
Proof.
  intros Hopen Hclose Hpath Hget.
  unfold xmlDataRenderer. rewrite (split_braces_plain xml Hopen Hclose).
  cbn [map]. unfold render_piece. rewrite Hpath, Hget. reflexivity.
Qed.

Lemma text_outside_braces_is_looked_up_witness :
  xmlDataRenderer int_NumberToString "w" (VObj 0 [("w", VStr "1")]) = "1".
Proof.
  apply text_outside_braces_is_looked_up; reflexivity.
Defined.

(** ** What [compareTwoTarget] writes *)

Lemma lookup_assign_other k k' v ps :
  k <> k' -> lookup k (assign k' v ps) = lookup k ps.
Proof.
  intros Hne. induction ps as [|[k0 v0] ps IH]; simpl.
  - destruct (String.eqb_spec k k'); [contradiction | reflexivity].
  - destruct (String.eqb_spec k' k0) as [->|Hk0]; simpl.
    + destruct (String.eqb_spec k k0); [contradiction | reflexivity].
    + destruct (String.eqb_spec k k0); [reflexivity | exact IH].
Qed.

Lemma lookup_assign_same k v ps : lookup k (assign k v ps) = Some v.
Proof.
  induction ps as [|[k0 v0] ps IH]; simpl.
  - now rewrite String.eqb_refl.
  - destruct (String.eqb_spec k k0) as [->|Hne]; simpl.
    + now rewrite String.eqb_refl.
    + destruct (String.eqb_spec k k0); [contradiction | exact IH].
Qed.

Lemma key_only_refl n : key_only n n.
Proof.
  induction n as [type attrs children bbox rest IH] using NodeInstructure_tree_ind.
  destruct children as [l|].
  - apply key_only_inner; [reflexivity|].
    induction IH; constructor; auto.
  - now apply key_only_leaf.
Qed.

Lemma key_only_children compare nowChilren :
  Forall (fun n => forall former, key_only n (snd (compare n former))) nowChilren ->
  forall formerChilren count,
    Forall2 key_only nowChilren
            (snd (compare_children compare nowChilren formerChilren count)).
Proof.
  induction 1 as [|n more Hn _ IH]; intros formerChilren [|count]; simpl;
    try constructor.
  - apply key_only_refl.
  - clear. induction more; constructor; auto using key_only_refl.
  - specialize (Hn (nth_error formerChilren 0)).
    specialize (IH (tl formerChilren) count).
    destruct (compare n _) as [d n'].
    destruct (compare_children compare more _ count) as [ds more'].
    simpl in *. now constructor.
Qed.

Lemma compare_present_snd type attrs0 nowKids bbox rest former :
  snd (compare_present (Node type attrs0 nowKids bbox rest) (Some former))
  = Node type
         (if truthy (get (node_attrs former) "key")
          then assign "key" (get (node_attrs former) "key") attrs0
          else attrs0)
         (snd (compare_kids compare_present nowKids former)) bbox rest.
Proof.
  cbn [compare_present].
  destruct (compare_kids compare_present nowKids former) as [children nowKids'].
  destruct (negb _); [reflexivity|].
  destruct (attrs_differ _ _); reflexivity.
Qed.

Lemma compare_present_key_only now :
  forall former, key_only now (snd (compare_present now former)).
Proof.
  induction now as [type attrs0 nowKids bbox rest IH]
    using NodeInstructure_tree_ind.
  intros [former|]; [|apply key_only_refl].
  rewrite compare_present_snd.
  set (attrs := if truthy _ then _ else attrs0).
  assert (Hattrs : forall k, k <> "key" -> lookup k attrs = lookup k attrs0).
  { intros k Hk. subst attrs. destruct (truthy _); [|reflexivity].
    now apply lookup_assign_other. }
  unfold compare_kids.
  destruct nowKids as [nowChilren|]; cbn [option_map].
  - destruct (positive_length _ || positive_length _).
    + pose proof (key_only_children compare_present nowChilren IH
                    (match node_children former with Some l => l | None => [] end)
                    (iterations (Math_max (Some (List.length nowChilren))
                                          (children_length former)))) as Hkids.
      destruct (compare_children _ _ _ _) as [ds ns].
      now apply key_only_inner.
    + apply key_only_inner; [exact Hattrs|].
      clear. induction nowChilren; constructor; auto using key_only_refl.
  - destruct (positive_length _ || positive_length _);
      now apply key_only_leaf.
Qed.

(** C5, counterexample — diffing a current node without a key against a
    previous node that carries one leaves the current node with that key in
    its [attrs]. *)
Lemma compare_modifies_current_attrs :
  exists now',
    snd (compareTwoTarget (Some keyless_rect) (Some keyed_rect)) = Some now'
    /\ node_attrs now' <> node_attrs keyless_rect.
Proof.
  eexists. split; [reflexivity|]. discriminate.
Qed.

Lemma nth_error_tl {A} (l : list A) j : nth_error (tl l) j = nth_error l (S j).
Proof. destruct l; [now destruct j | reflexivity]. Qed.

(** What the loop leaves of [nowChilren] when it runs over all of it: each
    child as its own comparison leaves it. *)
Lemma compare_children_left compare nowChilren :
  forall formerChilren count,
    (List.length nowChilren <= count)%nat ->
    List.length (snd (compare_children compare nowChilren formerChilren count))
    = List.length nowChilren
    /\ forall i child,
         nth_error nowChilren i = Some child ->
         nth_error (snd (compare_children compare nowChilren formerChilren count)) i
         = Some (snd (compare child (nth_error formerChilren i))).
Proof.
  induction nowChilren as [|n more IH]; intros formerChilren count Hlen.
  - split.
    + now destruct count.
    + intros [|i] child H; discriminate H.
  - destruct count as [|count]; [cbn in Hlen; lia|].
    cbn in Hlen. cbn [compare_children].
    destruct (IH (tl formerChilren) count ltac:(lia)) as [Hl Hnth].
    destruct (compare n (nth_error formerChilren 0)) as [d n'] eqn:Hn.
    destruct (compare_children compare more (tl formerChilren) count)
      as [ds more'].
    cbn [snd] in *. split; [cbn; now rewrite Hl|].
    intros [|i] child H; cbn [nth_error] in H.
    + injection H as <-.
      change (Some n' = Some (snd (compare n (nth_error formerChilren 0)))).
      now rewrite Hn.
    + change (nth_error more' i
              = Some (snd (compare child (nth_error formerChilren (S i))))).
      rewrite (Hnth i child H). now rewrite nth_error_tl.
Qed.

Lemma compare_kids_left nowChilren former formerChilren :
  node_children former = Some formerChilren ->
  exists left,
    snd (compare_kids compare_present (Some nowChilren) former) = Some left
    /\ List.length left = List.length nowChilren
    /\ forall i child,
         nth_error nowChilren i = Some child ->
         nth_error left i
         = Some (snd (compare_present child (nth_error formerChilren i))).
Proof.
  intros Hformer. unfold compare_kids, children_length. rewrite Hformer.
  cbn [option_map].
  destruct (positive_length _ || positive_length _) eqn:Hpos.
  - cbn [Math_max iterations].
    destruct (compare_children_left compare_present nowChilren formerChilren
                (Nat.max (List.length nowChilren) (List.length formerChilren))
                (Nat.le_max_l _ _)) as [Hl Hnth].
    destruct (compare_children _ _ _ _) as [ds ns]. cbn [snd] in *.
    exists ns. auto.
  - cbn [snd]. exists nowChilren. split; [reflexivity|]. split; [reflexivity|].
    destruct nowChilren as [|c l]; [|cbn in Hpos; discriminate Hpos].
    intros [|i] child H; discriminate H.
Qed.

Lemma compare_kids_unread nowKids former :
  node_children former = None ->
  snd (compare_kids compare_present nowKids former) = nowKids.
Proof.
  intros Hformer. unfold compare_kids, children_length. rewrite Hformer.
  destruct nowKids as [nowChilren|]; cbn [option_map].
  - destruct (positive_length _ || positive_length _); [|reflexivity].
    cbn [Math_max iterations]. now destruct nowChilren.
  - reflexivity.
Qed.

(** C5, amended — [compareTwoTarget] writes to the current tree, and
    [attrs.key] is all it writes.  A current node compared against a present
    previous node whose key is truthy gets that key stored under
    [attrs.key]; its other attributes, its type, bbox and other properties
    stay as they are, node by node.  Where both nodes have a [children]
    array every current child is left as its own comparison against the
    previous child at the same position leaves it; against an absent previous
    node, or one without a [children] array, the children are not touched.
    An absent current tree stays absent, and a previous node held by the
    result is the previous node as it was given. *)
Theorem compare_writes_only_key
    (nowTarget : NodeInstructure) (formerTarget : option NodeInstructure) :
  (exists now',
      snd (compareTwoTarget (Some nowTarget) formerTarget) = Some now'
      /\ key_only nowTarget now'
      /\ node_attrs now'
         = match formerTarget with
           | Some former =>
               if truthy (get (node_attrs former) "key")
               then assign "key" (get (node_attrs former) "key")
                           (node_attrs nowTarget)
               else node_attrs nowTarget
           | None => node_attrs nowTarget
           end
      /\ (forall former nowChilren formerChilren,
             formerTarget = Some former ->
             node_children nowTarget = Some nowChilren ->
             node_children former = Some formerChilren ->
             exists left,
               node_children now' = Some left
               /\ List.length left = List.length nowChilren
               /\ forall i child,
                    nth_error nowChilren i = Some child ->
                    exists child',
                      nth_error left i = Some child'
                      /\ snd (compareTwoTarget (Some child)
                                               (nth_error formerChilren i))
                         = Some child')
      /\ (formerTarget = None
          \/ (exists former,
                 formerTarget = Some former /\ node_children former = None) ->
          node_children now' = node_children nowTarget))
  /\ snd (compareTwoTarget None formerTarget) = None
  /\ (forall nowTarget' previous,
         diff_former (fst (compareTwoTarget nowTarget' formerTarget))
         = Some previous ->
         formerTarget = Some previous).
Proof.
  split; [|split; [reflexivity|]].
  - unfold compareTwoTarget at 1.
    pose proof (compare_present_key_only nowTarget formerTarget) as Hkey.
    destruct (compare_present nowTarget formerTarget) as [d now'] eqn:Hcmp.
    assert (Hnow : now' = snd (compare_present nowTarget formerTarget))
      by now rewrite Hcmp.
    exists now'. split; [reflexivity|]. split; [exact Hkey|].
    destruct nowTarget as [type attrs0 nowKids bbox rest].
    destruct formerTarget as [former|].
    + rewrite compare_present_snd in Hnow. subst now'.
      cbn [node_attrs node_children]. split; [reflexivity|]. split.
      * intros former' nowChilren formerChilren [= <-] [= ->] Hformer.
        destruct (compare_kids_left nowChilren former formerChilren Hformer)
          as (left & Hleft & Hlen & Hnth).
        exists left. split; [exact Hleft|]. split; [exact Hlen|].
        intros i child Hchild. rewrite (Hnth i child Hchild).
        eexists. split; [reflexivity|].
        unfold compareTwoTarget.
        now destruct (compare_present child (nth_error formerChilren i)).
      * intros [Hnone | (former' & [= <-] & Hformer)]; [discriminate|].
        now apply compare_kids_unread.
    + cbn in Hnow. subst now'. cbn [node_attrs node_children].
      split; [reflexivity|]. split; [|reflexivity].
      intros former nowChilren formerChilren H. discriminate H.
  - intros [now|] previous; unfold compareTwoTarget.
    + destruct formerTarget as [former|].
      * destruct now as [type attrs0 nowKids bbox rest]. cbn [compare_present].
        destruct (compare_kids compare_present nowKids former) as [children kids].
        destruct (negb _); [cbn; now intros [= <-]|].
        destruct (attrs_differ _ _); cbn; discriminate.
      * destruct now as [type attrs0 nowKids bbox rest]. cbn. discriminate.
    + destruct formerTarget as [former|]; cbn; [now intros [= <-] | discriminate].
Qed.

(** ** Layout on numeric geometry *)

Section LayoutProperties.

Variable s2n : string -> number.
Variable n2s : number -> string.

Lemma js_or_number q :
  exists q', js_or (VNum (Fin q)) (num 0) = VNum (Fin q') /\ (q' == q)%Q.
Proof.
  unfold js_or. cbn [truthy].
  destruct (Qeq_bool q 0) eqn:Hq; cbn [negb].
  - exists (inject_Z 0). split; [reflexivity|].
    apply Qeq_bool_iff in Hq. rewrite Hq. reflexivity.
  - exists q. split; reflexivity.
Qed.




Lemma number_if_set_truthy v :
  number_if_set v = true -> truthy v = true -> exists n, v = VNum n.
Proof.
  unfold number_if_set. intros H Ht. rewrite Ht in H. cbn in H.
  destruct v; try discriminate. now eexists.
Qed.

Lemma number_if_set_finite v :
  number_if_set v = true -> truthy v = true -> exists q, v = VNum (Fin q).
Proof.
  intros H Ht. destruct (number_if_set_truthy v H Ht) as [n ->].
  destruct n as [|q]; [discriminate | now eexists].
Qed.



Lemma strict_eq_string v t : strict_eq v (VStr t) = true -> v = VStr t.
Proof.
  destruct v; try discriminate. cbn. intros H.
  apply String.eqb_eq in H. now subst.
Qed.

(** The box that [getBBox] returns, field by field. *)
Lemma getBBox_fst node offset chilrenBBox :
  fst (getBBox s2n n2s node offset chilrenBBox)
  = let attrs := node_attrs node in
    let shape := shapeSize s2n n2s (node_type node) attrs in
    let x0 := js_or (Offset.x offset) (num 0) in
    let y0 := js_or (Offset.y offset) (num 0) in
    let y1 := if is_text_shape (node_type node) attrs
              then js_add s2n n2s y0 (snd shape) else y0 in
    BBox.mk
      (if truthy (get attrs "marginLeft")
       then js_add s2n n2s x0 (get attrs "marginLeft") else x0)
      (if truthy (get attrs "marginTop")
       then js_add s2n n2s y1 (get attrs "marginTop") else y1)
      (if passes_guard s2n n2s (fst shape) then fst shape
       else js_or (BBox.width chilrenBBox) (num 0))
      (if passes_guard s2n n2s (snd shape) then snd shape
       else js_or (BBox.height chilrenBBox) (num 0)).
Proof.
  unfold getBBox, passes_guard.
  destruct (shapeSize s2n n2s (node_type node) (node_attrs node)) as [sw sh].
  cbn [fst snd].
  destruct (is_text_shape _ _), (js_ge s2n n2s sh (num 0)),
           (js_ge s2n n2s sw (num 0)),
           (truthy (get (node_attrs node) "marginTop")),
           (truthy (get (node_attrs node) "marginLeft")); reflexivity.
Qed.

Lemma getBBox_snd node offset chilrenBBox :
  snd (getBBox s2n n2s node offset chilrenBBox)
  = if is_text_shape (node_type node) (node_attrs node)
    then set_attrs node (spread text_defaults (node_attrs node))
    else node.
Proof.
  unfold getBBox.
  destruct (shapeSize s2n n2s (node_type node) (node_attrs node)) as [sw sh].
  destruct (is_text_shape _ _); reflexivity.
Qed.

Lemma text_shape_height type attrs :
  is_text_shape type attrs = true ->
  snd (shapeSize s2n n2s type attrs) = num 16.
Proof.
  unfold is_text_shape. intros H. apply andb_true_iff in H as [Hty Htext].
  apply strict_eq_string in Hty. subst type.
  unfold shapeSize. cbn [strict_eq String.eqb Ascii.eqb Bool.eqb orb].
  now rewrite Htext.
Qed.



(** *** Trees *)

Lemma paired_root R a b : paired R a b -> R a b.
Proof. now destruct 1. Qed.


Lemma paired_right (R : NodeInstructure -> NodeInstructure -> Prop)
    (P : NodeInstructure -> Prop) :
  (forall a b, R a b -> P b) ->
  forall a b, paired R a b -> Forall_nodes P b.
Proof.
  intros Himp. fix self 3.
  intros a b [a' b' Hr Ha Hb | a' b' l l' Hr Ha Hb Hkids].
  - apply Forall_nodes_leaf; eauto.
  - apply (Forall_nodes_inner P b' l'); eauto.
    clear Ha Hb.
    induction Hkids as [|x y k k' Hxy _ IH].
    + constructor.
    + constructor; [apply (self x); exact Hxy | exact IH].
Qed.

Lemma get_assign_other k k' v ps : k <> k' -> get (assign k' v ps) k = get ps k.
Proof. intros H. unfold get. now rewrite lookup_assign_other. Qed.




(** *** The invariant of layout *)



Lemma within_weaken W H W' H' out :
  (W <= W')%Q -> (H <= H')%Q -> within W H out -> within W' H' out.
Proof.
  intros HW HH (r & b & Hr & Hb & Hrw & Hbh).
  exists r, b. repeat split; auto; lra.
Qed.



Lemma resolve_unfold key type attrs0 children bbox0 rest lastOffset :
  resolve s2n n2s key (Node type attrs0 children bbox0 rest) lastOffset
  = let attrs := with_key key attrs0 in
    let kids := resolve_kids s2n n2s (resolve s2n n2s) attrs lastOffset children in
    let defaultBbox :=
      BBox.mk (Offset.x lastOffset) (Offset.y lastOffset)
              (flow_width (snd kids)) (flow_height (snd kids)) in
    let boxed :=
      getBBox s2n n2s (Node type attrs (fst kids) bbox0 rest) lastOffset defaultBbox in
    set_attrs (set_bbox (snd boxed) (fst boxed))
              (spread (node_attrs (set_bbox (snd boxed) (fst boxed)))
                      (BBox.to_props (fst boxed))).
Proof.
  cbn [resolve]. cbn zeta.
  destruct (resolve_kids _ _ _ _ _ _) as [kids st]. cbn [fst snd].
  destruct (getBBox _ _ _ _ _) as [bbox target]. reflexivity.
Qed.

Lemma resolve_children_field key node lastOffset :
  node_children (resolve s2n n2s key node lastOffset)
  = fst (resolve_kids s2n n2s (resolve s2n n2s)
           (with_key key (node_attrs node)) lastOffset (node_children node)).
Proof.
  destruct node as [type attrs0 children bbox0 rest].
  rewrite resolve_unfold. cbn zeta. rewrite getBBox_snd.
  cbn [node_attrs node_type node_children].
  destruct (is_text_shape _ _); reflexivity.
Qed.







End LayoutProperties.

(** ** The radius rule of [getBBox] *)

(** C8 (as the code behaves) — the [case] label reads ['maker'], so a node
    of type [marker] never reaches the radius rule: whatever is written to
    its [r], [getBBox] returns the same box, and alone at the origin with
    [r: 5] it resolves to an empty box instead of one of width and height
    10. *)
Theorem marker_radius_is_ignored
    (StringToNumber : string -> number) (NumberToString : number -> string)
    (attrs : props) (r : value) (children : option (list NodeInstructure))
    (bbox : option BBox.t) (rest : props)
    (offset : Offset.t) (chilrenBBox : BBox.t) :
  fst (getBBox StringToNumber NumberToString
         (Node (VStr "marker") (assign "r" r attrs) children bbox rest)
         offset chilrenBBox)
  = fst (getBBox StringToNumber NumberToString
           (Node (VStr "marker") attrs children bbox rest) offset chilrenBBox)
  /\ node_bbox (generateTarget StringToNumber NumberToString
                  (Node (VStr "marker") [("r", num 5)] None None []) origin)
     = Some (BBox.mk (num 0) (num 0) (num 0) (num 0)).
Proof.
  split; [|reflexivity].
  rewrite !getBBox_fst. cbn [node_type node_attrs].
  unfold shapeSize, is_text_shape.
  cbn [strict_eq String.eqb Ascii.eqb Bool.eqb orb andb].
  now rewrite !get_assign_other by discriminate.
Qed.

(** For [circle], and for the label as it is spelled, a positive radius
    gives a box of twice the radius whatever the children enclose. *)
Lemma circle_radius_doubles
    (StringToNumber : string -> number) (NumberToString : number -> string)
    (node : NodeInstructure) (offset : Offset.t) (chilrenBBox : BBox.t) (q : Q) :
  node_type node = VStr "circle" \/ node_type node = VStr "maker" ->
  get (node_attrs node) "r" = VNum (Fin q) ->
  (0 < q)%Q ->
  let bbox := fst (getBBox StringToNumber NumberToString node offset chilrenBBox) in
  BBox.width bbox = VNum (Fin (inject_Z 2 * q))
  /\ BBox.height bbox = VNum (Fin (inject_Z 2 * q)).
Proof.
  intros Hty Hr Hq.
  assert (Htruthy : truthy (VNum (Fin q)) = true).
  { simpl. apply negb_true_iff. apply not_true_is_false. intros Heq.
    apply Qeq_bool_iff in Heq. lra. }
  assert (Hge : js_ge StringToNumber NumberToString
                  (VNum (Fin (inject_Z 2 * q))) (num 0) = true).
  { unfold js_ge. cbn. apply Qle_bool_iff. unfold inject_Z. lra. }
  unfold getBBox, shapeSize, is_text_shape.
  destruct Hty as [-> | ->]; cbn [strict_eq String.eqb Ascii.eqb Bool.eqb orb andb];
    rewrite Hr, Htruthy; unfold js_mul; cbn [ToNumber ToPrimitive num num_of_Z num_mul];
    rewrite Hge;
    destruct (truthy (get (node_attrs node) "marginTop")),
             (truthy (get (node_attrs node) "marginLeft")); split; reflexivity.
Qed.

(** ** Exact inputs are numeric inputs *)


Lemma unset_or_safe_number v : unset_or_safe v = true -> number_if_set v = true.
Proof.
  destruct v as [| | |[|q]| | |]; try discriminate; intros _; try reflexivity.
  unfold number_if_set. cbn [is_number]. apply orb_true_r.
Qed.

Lemma exact_geometry_numeric n : exact_geometry n = true -> numeric_geometry n.
Proof.
  unfold exact_geometry, geometry_names. cbn [forallb].
  intros H. repeat (apply andb_true_iff in H as [? H]).
  repeat match goal with
         | Hk : _ && _ = true |- _ => apply andb_true_iff in Hk as [? ?]
         end.
  repeat split; now apply unset_or_safe_number.
Qed.


(** ** Layout enclosure and explicit sizes *)




(** ** Sizes that are not negative numbers *)




(** ** Diffing a tree against a copy of itself *)

Lemma copy_of_comparable v v' :
  copy_of v v' -> comparable v = true -> v' = v.
Proof. destruct 1; auto; discriminate. Qed.

Lemma props_copy_comparable ps ps' :
  props_copy ps ps' ->
  Forall (fun p => comparable (snd p) = true) ps ->
  ps' = ps.
Proof.
  induction 1 as [|[k v] [k' v'] ps ps' [Hk Hv] _ IH]; intros Hall; [reflexivity|].
  inversion Hall as [|p l Hp Hl]; subst. cbn in *. subst k'.
  rewrite (copy_of_comparable v v' Hv Hp). now rewrite (IH Hl).
Qed.

Lemma strict_eq_refl v : comparable v = true -> strict_eq v v = true.
Proof.
  destruct v as [| |b|[|q]|t|r f|r i]; cbn; try discriminate; auto.
  - intros _. now destruct b.
  - intros _. apply Qeq_bool_refl.
  - intros _. apply String.eqb_refl.
Qed.

Lemma assign_present k v ps : lookup k ps = Some v -> assign k v ps = ps.
Proof.
  induction ps as [|[k0 v0] ps IH]; [discriminate|]. cbn.
  destruct (String.eqb_spec k k0) as [->|Hne].
  - now intros [= ->].
  - intros H. now rewrite (IH H).
Qed.

Lemma truthy_get_present ps k :
  truthy (get ps k) = true -> lookup k ps = Some (get ps k).
Proof.
  unfold get. destruct (lookup k ps); [reflexivity | discriminate].
Qed.

Lemma lookup_comparable ps k v :
  Forall (fun p => comparable (snd p) = true) ps ->
  lookup k ps = Some v -> comparable v = true.
Proof.
  induction 1 as [|[k0 v0] ps Hp _ IH]; [discriminate|]. cbn.
  destruct (k =? k0); [now intros [= <-] | exact IH].
Qed.

Lemma includes_keys ps k v : lookup k ps = Some v -> includes (keys ps) k = true.
Proof.
  induction ps as [|[k0 v0] ps IH]; [discriminate|]. cbn.
  destruct (k =? k0); [reflexivity|]. exact IH.
Qed.

Lemma lookup_of_key ps k : In k (keys ps) -> exists v, lookup k ps = Some v.
Proof.
  induction ps as [|[k0 v0] ps IH]; [contradiction|]. cbn.
  destruct (String.eqb_spec k k0) as [->|Hne]; [now eexists|].
  intros [Heq|Hin]; [congruence | now apply IH].
Qed.

(** Comparable attributes do not differ from themselves. *)
Lemma attrs_differ_self attrs :
  Forall (fun p => comparable (snd p) = true) attrs ->
  attrs_differ attrs attrs = false.
Proof.
  intros Hall. unfold attrs_differ.
  apply not_true_is_false. intros Hex.
  apply existsb_exists in Hex as (e & Hin & Hdiff).
  apply filter_In in Hin as [Hin _].
  destruct (lookup_of_key attrs e Hin) as [v Hv].
  rewrite (includes_keys attrs e v Hv) in Hdiff.
  unfold get in Hdiff. rewrite Hv in Hdiff.
  rewrite (strict_eq_refl v (lookup_comparable attrs e v Hall Hv)) in Hdiff.
  discriminate.
Qed.

Lemma compare_children_copy l l' :
  Forall2 node_copy l l' ->
  Forall (fun n => forall former,
              node_copy n former -> Forall_nodes comparable_node n ->
              all_same (fst (compare_present n (Some former)))) l ->
  Forall (Forall_nodes comparable_node) l ->
  Forall all_same (fst (compare_children compare_present l l' (List.length l))).
Proof.
  induction 1 as [|n n' l l' Hn _ IH]; intros Hrec Hcmp; cbn; [constructor|].
  inversion Hrec as [|? ? Hrec_n Hrec_l]; subst.
  inversion Hcmp as [|? ? Hcmp_n Hcmp_l]; subst.
  specialize (Hrec_n n' Hn Hcmp_n). specialize (IH Hrec_l Hcmp_l).
  destruct (compare_present n (Some n')) as [d n1].
  destruct (compare_children compare_present l l' (List.length l)) as [ds more].
  cbn in *. now constructor.
Qed.

Lemma compare_copy_same now :
  forall former,
    node_copy now former -> Forall_nodes comparable_node now ->
    all_same (fst (compare_present now (Some former))).
Proof.
  induction now as [type attrs nowKids bbox rest IH]
    using NodeInstructure_tree_ind.
  intros [type' attrs' formerKids bbox' rest'] Hcopy Hcmp.
  assert (Hroot : comparable_node (Node type attrs nowKids bbox rest))
    by now inversion Hcmp.
  destruct Hroot as [Hty Hattrs]. cbn [node_type node_attrs] in Hty, Hattrs.
  assert (Hsame : type' = type /\ attrs' = attrs).
  { apply paired_root in Hcopy as [Ht Ha]. cbn in Ht, Ha. split.
    - now apply copy_of_comparable.
    - now apply props_copy_comparable. }
  destruct Hsame as [-> ->].
  assert (Hkids : Forall all_same
                    (fst (compare_kids compare_present nowKids
                            (Node type attrs formerKids bbox' rest')))).
  { unfold compare_kids, children_length. cbn [node_children].
    inversion Hcopy as [a b _ Ha Hb | a b l l' _ Ha Hb Hl]; subst;
      cbn in Ha, Hb; subst; cbn [option_map].
    - cbn. constructor.
    - destruct (positive_length _ || positive_length _); [|constructor].
      cbn [Math_max iterations].
      rewrite <- (Forall2_length Hl), Nat.max_id.
      assert (Hall : Forall (Forall_nodes comparable_node) l).
      { inversion Hcmp as [n Hn Hc | n k Hn Hc Hk]; subst; cbn in Hc;
          [discriminate | now injection Hc as ->]. }
      pose proof (compare_children_copy l l' Hl IH Hall) as Hds.
      destruct (compare_children compare_present l l' (List.length l)) as [ds ns].
      exact Hds. }
  cbn [compare_present node_attrs node_type].
  destruct (compare_kids compare_present nowKids _) as [children nowKids'].
  cbn [fst] in Hkids.
  assert (Hkey : (if truthy (get attrs "key")
                  then assign "key" (get attrs "key") attrs else attrs) = attrs).
  { destruct (truthy (get attrs "key")) eqn:Ht; [|reflexivity].
    apply assign_present. now apply truthy_get_present. }
  rewrite Hkey, (strict_eq_refl type Hty), (attrs_differ_self attrs Hattrs).
  cbn [negb fst]. now constructor.
Qed.

(** C7, counterexample — two deep-equal copies of a node whose [attrs] hold
    an array compare as [change]: [!==] on the two arrays compares their
    identities. *)
Lemma nested_attribute_copy_is_change :
  node_copy (styled_rect 1) (styled_rect 2)
  /\ action (fst (compareTwoTarget (Some (styled_rect 1)) (Some (styled_rect 2))))
     = change.
Proof.
  split; [|reflexivity].
  apply paired_leaf; [|reflexivity|reflexivity].
  split; [constructor|].
  repeat constructor.
Qed.

(** C7, amended — diffing a tree against a deep-equal copy yields [same]
    at every node of the diff tree provided every type and every attribute
    value in the tree is strictly equal to its copy, that is, none of them is
    an object, an array or NaN. *)
Theorem copy_of_comparable_tree_is_same (T T' : NodeInstructure) :
  node_copy T T' ->
  Forall_nodes comparable_node T ->
  all_same (fst (compareTwoTarget (Some T) (Some T'))).
Proof.
  intros Hcopy Hcmp. unfold compareTwoTarget.
  pose proof (compare_copy_same T T' Hcopy Hcmp) as Hsame.
  destruct (compare_present T (Some T')) as [d now']. exact Hsame.
Qed.

Lemma copy_of_comparable_tree_is_same_witness :
  all_same (fst (compareTwoTarget (Some plain_tree) (Some plain_tree))).
Proof.
  apply (copy_of_comparable_tree_is_same plain_tree plain_tree).
  - eapply paired_inner; [ | reflexivity | reflexivity | ].
    + split; repeat constructor.
    + constructor; [|constructor].
      apply paired_leaf; [|reflexivity|reflexivity].
      split; repeat constructor.
  - eapply Forall_nodes_inner; [ | reflexivity | ].
    + split; repeat constructor.
    + constructor; [|constructor].
      apply Forall_nodes_leaf; [|reflexivity].
      split; repeat constructor.
Defined.

(* ================================================================= *)
(** * Further properties of the code *)

(** ** Characters *)

Lemma path_char_facts a :
  (is_word a || Ascii.eqb a ".") = true ->
  Ascii.eqb a "{" = false /\ Ascii.eqb a "}" = false /\ is_space a = false.
Proof.
  destruct a as [[] [] [] [] [] [] [] []]; vm_compute; intros H;
    try discriminate H; repeat split.
Qed.

Lemma upper_hyphen a : Ascii.eqb (upper a) "-" = Ascii.eqb a "-".
Proof. destruct a as [[] [] [] [] [] [] [] []]; reflexivity. Qed.

Lemma has_char_append c s t :
  has_char c (s ++ t) = has_char c s || has_char c t.
Proof.
  induction s as [|a s IH]; [reflexivity|].
  cbn. now rewrite IH, orb_assoc.
Qed.

(** ** [keyConvert] *)

Lemma split_on_plain sep s : has_char sep s = false -> split_on sep s = [s].
Proof.
  induction s as [|a r IH]; [reflexivity|]. cbn.
  intros H. apply orb_false_iff in H as [Ha Hr].
  now rewrite Ha, (IH Hr).
Qed.

Lemma split_on_pieces sep s :
  Forall (fun p => has_char sep p = false) (split_on sep s).
Proof.
  induction s as [|a r IH]; cbn; [now constructor|].
  destruct (Ascii.eqb a sep) eqn:Ha; [now constructor|].
  destruct (split_on sep r) as [|h t]; cbn.
  - constructor; [|constructor]. cbn. now rewrite Ha.
  - inversion IH; subst. constructor; [|assumption]. cbn. now rewrite Ha.
Qed.

(** X1 — A name without a hyphen is its own key: no letter is touched, not
    even an upper-case one. *)
Theorem keyConvert_plain (str : string) :
  has_char "-" str = false -> keyConvert str = str.
Proof.
  intros H. unfold keyConvert. now rewrite (split_on_plain "-" str H).
Qed.

Lemma keyConvert_plain_witness : keyConvert "keyShape" = "keyShape".
Proof. apply keyConvert_plain. reflexivity. Defined.

(** X2 — No hyphen is left in a converted key, wherever the hyphens stood. *)
Theorem keyConvert_no_hyphen (str : string) :
  has_char "-" (keyConvert str) = false.
Proof.
  unfold keyConvert.
  pose proof (split_on_pieces "-" str) as Hall.
  destruct (split_on "-" str) as [|first others]; [reflexivity|].
  inversion Hall as [|? ? Hfirst Hothers]; subst. clear Hall.
  revert first Hfirst.
  induction Hothers as [|p others Hp _ IH]; intros first Hfirst; cbn;
    [exact Hfirst|].
  apply IH. rewrite has_char_append, Hfirst. cbn.
  destruct p as [|a p]; [reflexivity|].
  cbn in *. now rewrite upper_hyphen.
Qed.

Lemma split_on_append sep a b :
  has_char sep a = false ->
  split_on sep (a ++ String sep b) = a :: split_on sep b.
Proof.
  induction a as [|c a IH]; cbn.
  - intros _. now rewrite Ascii.eqb_refl.
  - intros H. apply orb_false_iff in H as [Hc Ha].
    now rewrite Hc, (IH Ha).
Qed.

(** X3 — A hyphen joins two parts into camel case: the part before it is kept
    as it is and the first letter of the part after it, ASCII text, is
    capitalised. *)
Theorem keyConvert_camel (a b : string) :
  has_char "-" a = false -> has_char "-" b = false ->
  ascii_only b = true ->
  keyConvert (a ++ String "-" b) = a ++ capitalize b.
Proof.
  intros Ha Hb _. unfold keyConvert.
  now rewrite (split_on_append "-" a b Ha), (split_on_plain "-" b Hb).
Qed.

Lemma keyConvert_camel_witness : keyConvert "font-size" = "fontSize".
Proof. apply (keyConvert_camel "font" "size"); reflexivity. Defined.

(** ** [xmlDataRenderer] *)

Lemma join_empty_strings (n2s : number -> string) (l : list string) :
  join_empty n2s (map VStr l) = String.concat "" l.
Proof.
  unfold join_empty. rewrite map_map. cbn. now rewrite map_id.
Qed.

(** X4 — Without a data object nothing is substituted: the pieces of the
    template are put together again and only the brace pairs are gone. *)
Theorem xmlDataRenderer_without_data
    (NumberToString : number -> string) (xml : string) (data : value) :
  nullish data = true ->
  xmlDataRenderer NumberToString xml data = String.concat "" (split_braces xml).
Proof.
  intros Hnull. unfold xmlDataRenderer.
  rewrite <- (join_empty_strings NumberToString). f_equal.
  apply map_ext. intros text. unfold render_piece, lodash_get.
  rewrite Hnull. now destruct (is_path (trim text)).
Qed.

Lemma xmlDataRenderer_without_data_witness :
  xmlDataRenderer int_NumberToString "<rect width={{w}}/>" VUndef
  = String.concat "" (split_braces "<rect width={{w}}/>").
Proof. apply xmlDataRenderer_without_data. reflexivity. Defined.

(** X5 — A template of ASCII text without braces that is not itself a path
    comes back unchanged, whatever the data. *)
Theorem xmlDataRenderer_plain_text
    (NumberToString : number -> string) (xml : string) (data : value) :
  ascii_only xml = true ->
  has_char "{" xml = false ->
  has_char "}" xml = false ->
  is_path (trim xml) = false ->
  xmlDataRenderer NumberToString xml data = xml.
Proof.
  intros _ Hopen Hclose Hpath. unfold xmlDataRenderer.
  rewrite (split_braces_plain xml Hopen Hclose). cbn [map].
  unfold render_piece. now rewrite Hpath.
Qed.

Lemma xmlDataRenderer_plain_text_witness :
  xmlDataRenderer int_NumberToString "<rect/>" (VObj 0 [("rect", VStr "x")])
  = "<rect/>".
Proof. apply xmlDataRenderer_plain_text; reflexivity. Defined.

Lemma is_path_chars s :
  is_path s = true ->
  has_char "{" s = false /\ has_char "}" s = false
  /\ all_chars (fun a => negb (is_space a)) s = true.
Proof.
  unfold is_path. intros H. apply andb_true_iff in H as [_ H].
  induction s as [|a r IH]; [now repeat split|].
  cbn in H. apply andb_true_iff in H as [Ha Hr].
  destruct (path_char_facts a Ha) as (Ho & Hc & Hs).
  destruct (IH Hr) as (IHo & IHc & IHs).
  cbn. now rewrite Ho, Hc, Hs, IHo, IHc, IHs.
Qed.

Lemma trim_no_space s :
  all_chars (fun a => negb (is_space a)) s = true -> trim s = s.
Proof.
  intros H. unfold trim.
  assert (Hstart : trimStart s = s).
  { destruct s as [|a r]; [reflexivity|]. cbn in *.
    apply andb_true_iff in H as [Ha _].
    now destruct (is_space a). }
  rewrite Hstart.
  induction s as [|a r IH]; [reflexivity|].
  cbn in *. apply andb_true_iff in H as [Ha Hr].
  assert (Hr' : trimStart r = r).
  { destruct r as [|b r']; [reflexivity|]. cbn in *.
    apply andb_true_iff in Hr as [Hb _]. now destruct (is_space b). }
  rewrite (IH Hr Hr'). now destruct (is_space a).
Qed.

Lemma string_append_nil s : s ++ "" = s.
Proof. induction s as [|a s IH]; cbn; [reflexivity | now rewrite IH]. Qed.

Lemma split_braces_close k :
  has_char "{" k = false -> has_char "}" k = false ->
  split_braces (k ++ "}}") = [k; ""].
Proof.
  induction k as [|a r IH]; [reflexivity|].
  intros Ho Hc. cbn in Ho, Hc.
  apply orb_false_iff in Ho as [Hao Ho], Hc as [Hac Hc].
  specialize (IH Ho Hc).
  change (String a r ++ "}}") with (String a (r ++ "}}")).
  cbn [split_braces].
  destruct (r ++ "}}") as [|b r'] eqn:Hr.
  - destruct r; discriminate Hr.
  - unfold is_delimiter. rewrite Hao, Hac. cbn [andb orb].
    now rewrite IH.
Qed.

Lemma split_braces_token k :
  has_char "{" k = false -> has_char "}" k = false ->
  split_braces ("{{" ++ k ++ "}}") = [""; k; ""].
Proof.
  intros Ho Hc.
  change ("{{" ++ k ++ "}}") with (String "{" (String "{" (k ++ "}}"))).
  cbn [split_braces]. unfold is_delimiter at 1. cbn [Ascii.eqb Bool.eqb andb orb].
  now rewrite (split_braces_close k Ho Hc).
Qed.

(** X6 — A token [{{k}}] whose [k] is an own property of the data object,
    holding a boolean, a number or a string, is replaced by the string form
    of that property, also when [k] contains dots. *)
Theorem xmlDataRenderer_token
    (NumberToString : number -> string) (k : string)
    (ref : nat) (fields : props) (v : value) :
  is_path k = true ->
  lookup k fields = Some v ->
  nullish v = false ->
  primitive v = true ->
  xmlDataRenderer NumberToString ("{{" ++ k ++ "}}") (VObj ref fields)
  = ToString NumberToString v.
Proof.
  intros Hpath Hlookup Hv _.
  destruct (is_path_chars k Hpath) as (Ho & Hc & Hs).
  unfold xmlDataRenderer. rewrite (split_braces_token k Ho Hc).
  cbn [map]. unfold render_piece.
  rewrite (trim_no_space k Hs), Hpath.
  change (is_path (trim "")) with false. cbn iota.
  unfold lodash_get, castPath. cbn [nullish has_own].
  rewrite (includes_keys fields k v Hlookup), orb_true_r.
  cbn [baseGet nullish get_member]. unfold get. rewrite Hlookup.
  unfold join_empty.
  destruct v; try discriminate Hv; cbn [map nullish String.concat append];
    now rewrite string_append_nil.
Qed.

Lemma xmlDataRenderer_token_witness :
  xmlDataRenderer int_NumberToString "{{a.b}}" (VObj 0 [("a.b", num 7)]) = "7".
Proof.
  apply (xmlDataRenderer_token int_NumberToString "a.b" 0 [("a.b", num 7)] (num 7));
    reflexivity.
Defined.

Lemma includes_absent ps k : lookup k ps = None -> includes (keys ps) k = false.
Proof.
  induction ps as [|[k0 v0] ps IH]; [reflexivity|]. cbn.
  destruct (k =? k0); [discriminate | exact IH].
Qed.

(** X7 — A token whose name is not a property of the data object (nor a name
    that every object inherits) is not kept as a placeholder: its inner text
    is emitted and the braces are lost. *)
Theorem xmlDataRenderer_missing_key
    (NumberToString : number -> string) (k : string)
    (ref : nat) (fields : props) :
  is_path k = true ->
  has_char "." k = false ->
  inherited k = false ->
  lookup k fields = None ->
  xmlDataRenderer NumberToString ("{{" ++ k ++ "}}") (VObj ref fields) = k.
Proof.
  intros Hpath Hdot _ Hlookup.
  destruct (is_path_chars k Hpath) as (Ho & Hc & Hs).
  unfold xmlDataRenderer. rewrite (split_braces_token k Ho Hc).
  cbn [map]. unfold render_piece.
  rewrite (trim_no_space k Hs), Hpath.
  change (is_path (trim "")) with false. cbn iota.
  unfold lodash_get, castPath. cbn [nullish has_own]. rewrite Hdot.
  cbn [negb orb baseGet nullish get_member]. unfold get. rewrite Hlookup.
  unfold join_empty. cbn [map nullish String.concat ToString append].
  apply string_append_nil.
Qed.

Lemma xmlDataRenderer_missing_key_witness :
  xmlDataRenderer int_NumberToString "{{w}}" (VObj 0 [("h", num 7)]) = "w".
Proof.
  apply (xmlDataRenderer_missing_key int_NumberToString "w" 0 [("h", num 7)]);
    reflexivity.
Defined.

(** X8 — A dotted token walks into nested objects: [{{a.b}}] reads property [b]
    of the object stored under [a], a boolean, a number or a string. *)
Theorem xmlDataRenderer_nested_token
    (NumberToString : number -> string) (a b : string)
    (ref ref' : nat) (fields inner : props) (v : value) :
  is_path a = true -> has_char "." a = false ->
  is_path b = true -> has_char "." b = false ->
  lookup (a ++ String "." b) fields = None ->
  lookup a fields = Some (VObj ref' inner) ->
  lookup b inner = Some v ->
  nullish v = false ->
  primitive v = true ->
  xmlDataRenderer NumberToString ("{{" ++ (a ++ String "." b) ++ "}}")
                  (VObj ref fields)
  = ToString NumberToString v.
Proof.
  intros Ha Hda Hb Hdb Hwhole Hlook_a Hlook_b Hv _.
  assert (Hpath : is_path (a ++ String "." b) = true).
  { unfold is_path in *.
    apply andb_true_iff in Ha as [Hne Ha], Hb as [_ Hb].
    apply andb_true_iff. split.
    - destruct a; [discriminate Hne | reflexivity].
    - clear Hne Hda Hwhole Hlook_a.
      induction a as [|c a IH]; cbn in *.
      + now rewrite Hb.
      + apply andb_true_iff in Ha as [Hc Ha]. now rewrite Hc, (IH Ha). }
  destruct (is_path_chars _ Hpath) as (Ho & Hc & Hs).
  unfold xmlDataRenderer. rewrite (split_braces_token _ Ho Hc).
  cbn [map]. unfold render_piece.
  rewrite (trim_no_space _ Hs), Hpath.
  change (is_path (trim "")) with false. cbn iota.
  unfold lodash_get, castPath. cbn [nullish has_own].
  rewrite (includes_absent fields _ Hwhole), has_char_append.
  cbn [has_char]. rewrite Ascii.eqb_refl, orb_true_r. cbn [negb orb].
  rewrite (split_on_append "." a b Hda), (split_on_plain "." b Hdb).
  cbn [baseGet nullish get_member]. unfold get. rewrite Hlook_a.
  cbn [nullish get_member]. unfold get. rewrite Hlook_b.
  unfold join_empty.
  destruct v; try discriminate Hv; cbn [map nullish String.concat append];
    now rewrite string_append_nil.
Qed.

Lemma xmlDataRenderer_nested_token_witness :
  xmlDataRenderer int_NumberToString "{{style.fill}}"
    (VObj 0 [("style", VObj 1 [("fill", VStr "red")])])
  = "red".
Proof.
  apply (xmlDataRenderer_nested_token int_NumberToString "style" "fill" 0 1
           [("style", VObj 1 [("fill", VStr "red")])] [("fill", VStr "red")]
           (VStr "red")); reflexivity.
Defined.

(** ** [parseXML] *)

Lemma HTMLElement_tree_ind (P : HTMLElement -> Prop) :
  (forall tag attributes innerText kids,
      Forall P kids -> P (Element tag attributes innerText kids)) ->
  forall xml, P xml.
Proof.
  intros step. fix self 1.
  intros [tag attributes innerText kids]. apply step.
  induction kids as [|k kids IH]; constructor; [apply self | exact IH].
Qed.

Lemma parseXML_eq JSON5_parse tag attributes innerText kids :
  parseXML JSON5_parse (Element tag attributes innerText kids)
  = match parse_children JSON5_parse kids with
    | Throw ex => Throw ex
    | Ok children =>
        let attrs :=
          if tag_name tag =? "text" then [("text", VStr innerText)] else [] in
        match parse_attributes JSON5_parse
                (attrs, [("type", VStr (tag_name tag))]) attributes with
        | Throw ex => Throw ex
        | Ok (attrs, rst) =>
            Ok (match children with
                | [] =>
                    Node (get rst "type") attrs None None
                         (drop_keys ["type"; "attrs"; "bbox"] rst)
                | _ :: _ =>
                    Node (get rst "type") attrs (Some children) None
                         (drop_keys ["type"; "attrs"; "bbox"; "children"] rst)
                end)
        end
    end.
Proof. reflexivity. Qed.

Lemma parse_attributes_total JSON5_parse attributes :
  Forall (fun kv => keyConvert (fst kv) <> "style") attributes ->
  forall st, exists st', parse_attributes JSON5_parse st attributes = Ok st'.
Proof.
  induction 1 as [|[k val] more Hk _ IH]; intros st; cbn.
  - now exists st.
  - cbn in Hk. apply String.eqb_neq in Hk.
    unfold parse_attribute. destruct st as [attrs rst]. rewrite Hk.
    cbn [orb].
    destruct (keyConvert k =? "attrs"), (JSON5_parse val); apply IH.
Qed.

(** X9 — Only a [style] attribute can make [parseXML] throw: a tree of elements
    without one is always turned into a node, whatever [JSON5.parse] makes
    of the attribute values. *)
Theorem parseXML_total_without_style
    (JSON5_parse : string -> result value) (xml : HTMLElement) :
  Forall_elements no_style_attribute xml ->
  exists node, parseXML JSON5_parse xml = Ok node.
Proof.
  induction xml as [tag attributes innerText kids IH] using HTMLElement_tree_ind.
  intros Hok. inversion Hok as [? ? ? ? Hself Hkids]; subst.
  rewrite parseXML_eq.
  assert (Hchildren : exists children, parse_children JSON5_parse kids = Ok children).
  { clear Hok Hself. induction kids as [|k kids IHk]; cbn; [now eexists|].
    inversion IH as [|? ? Hk IH']; subst.
    inversion Hkids as [|? ? Hk' Hkids']; subst.
    destruct (Hk Hk') as [n ->].
    destruct (IHk IH' Hkids') as [ns ->]. now eexists. }
  destruct Hchildren as [children ->]. cbn zeta.
  destruct (parse_attributes_total JSON5_parse attributes Hself
              (if tag_name tag =? "text" then [("text", VStr innerText)] else [],
               [("type", VStr (tag_name tag))])) as [[attrs rst] ->].
  now eexists.
Qed.

Lemma parseXML_total_without_style_witness :
  exists node,
    parseXML literal_parse
      (Element (Some "RECT") [("fill", "red"); ("attrs", "{r:")] ""
               [Element (Some "TEXT") [] "hi" []])
    = Ok node.
Proof.
  apply parseXML_total_without_style.
  constructor.
  - constructor; [discriminate|]. constructor; [discriminate | constructor].
  - constructor; [|constructor]. constructor; constructor.
Defined.

Lemma parse_children_each JSON5_parse kids :
  forall children,
    parse_children JSON5_parse kids = Ok children ->
    Forall2 (fun e n => parseXML JSON5_parse e = Ok n) kids children.
Proof.
  induction kids as [|k kids IH]; cbn; intros children H.
  - injection H as <-. constructor.
  - destruct (parseXML JSON5_parse k) as [n|] eqn:Hk; [|discriminate].
    destruct (parse_children JSON5_parse kids) as [ns|]; [|discriminate].
    injection H as <-. constructor; auto.
Qed.

Lemma parse_attributes_lookup_other JSON5_parse key attributes :
  no_attribute key attributes ->
  forall attrs rst attrs' rst',
    parse_attributes JSON5_parse (attrs, rst) attributes = Ok (attrs', rst') ->
    lookup key rst' = lookup key rst.
Proof.
  induction 1 as [|[k val] more Hk _ IH]; intros attrs rst attrs' rst'; cbn.
  - now intros [= _ <-].
  - cbn in Hk.
    destruct ((keyConvert k =? "style") || (keyConvert k =? "attrs")).
    + destruct (JSON5_parse val); [intros H; exact (IH _ _ _ _ H)|].
      destruct (keyConvert k =? "style"); [discriminate|].
      intros H. rewrite (IH _ _ _ _ H). now apply lookup_assign_other.
    + destruct (JSON5_parse val).
      * intros H. rewrite (IH _ _ _ _ H). now apply lookup_assign_other.
      * destruct (keyConvert k =? "style"); [discriminate|].
        intros H. rewrite (IH _ _ _ _ H). now apply lookup_assign_other.
Qed.

Lemma lookup_drop_keys ks k ps :
  includes ks k = false -> lookup k (drop_keys ks ps) = lookup k ps.
Proof.
  intros Hk. unfold drop_keys.
  induction ps as [|[k0 v0] ps IH]; [reflexivity|].
  cbn. destruct (includes ks k0) eqn:Hk0; cbn.
  - destruct (String.eqb_spec k k0) as [->|_]; [congruence | exact IH].
  - now rewrite IH.
Qed.

(** X10 — The children of a parsed node are the parsed child elements, in
    order; an element without child elements gets no [children] field at
    all, never an empty array, unless an attribute supplies one: under the
    name [children], or through a prototype under the name [__proto__]. *)
Theorem parseXML_children
    (JSON5_parse : string -> result value) (tag : option string)
    (attributes : list (string * string)) (innerText : string)
    (kids : list HTMLElement) (node : NodeInstructure) :
  no_attribute "children" attributes ->
  no_attribute "__proto__" attributes ->
  parseXML JSON5_parse (Element tag attributes innerText kids) = Ok node ->
  match node_children node with
  | None => kids = [] /\ lookup "children" (node_rest node) = None
  | Some children =>
      kids <> []
      /\ Forall2 (fun e n => parseXML JSON5_parse e = Ok n) kids children
  end.
Proof.
  intros Hplain _. rewrite parseXML_eq.
  destruct (parse_children JSON5_parse kids) as [children|] eqn:Hc; [|discriminate].
  cbn zeta.
  destruct (parse_attributes _ _ _) as [[attrs rst]|] eqn:Hattrs; [|discriminate].
  intros [= <-].
  pose proof (parse_children_each JSON5_parse kids children Hc) as Hall.
  destruct children as [|c children]; cbn.
  - split; [now inversion Hall|].
    rewrite lookup_drop_keys by reflexivity.
    now rewrite (parse_attributes_lookup_other _ _ _ Hplain _ _ _ _ Hattrs).
  - split; [|exact Hall]. inversion Hall; subst. discriminate.
Qed.

Lemma parseXML_children_witness :
  parseXML literal_parse
    (Element (Some "GROUP") [("id", "5")] "" [Element (Some "RECT") [] "" []])
  = Ok (Node (VStr "group") [] (Some [Node (VStr "rect") [] None None []])
             None [("id", num 5)])
  /\ [Element (Some "RECT") [] "" []] <> []
  /\ Forall2 (fun e n => parseXML literal_parse e = Ok n)
             [Element (Some "RECT") [] "" []]
             [Node (VStr "rect") [] None None []].
Proof.
  split; [reflexivity|].
  apply (parseXML_children literal_parse (Some "GROUP") [("id", "5")] ""
           [Element (Some "RECT") [] "" []]
           (Node (VStr "group") [] (Some [Node (VStr "rect") [] None None []])
                 None [("id", num 5)])).
  - constructor; [discriminate | constructor].
  - constructor; [discriminate | constructor].
  - reflexivity.
Defined.

(** X11 — An error thrown while parsing a child element is the error of the
    whole call, provided the children before it parse. *)
Theorem parseXML_child_error
    (JSON5_parse : string -> result value) (tag : option string)
    (attributes : list (string * string)) (innerText : string)
    (before after : list HTMLElement) (child : HTMLElement) (e : string) :
  Forall (fun c => exists n, parseXML JSON5_parse c = Ok n) before ->
  parseXML JSON5_parse child = Throw e ->
  parseXML JSON5_parse
    (Element tag attributes innerText (before ++ child :: after)%list)
  = Throw e.
Proof.
  intros Hbefore Hchild. rewrite parseXML_eq.
  assert (Hc : parse_children JSON5_parse (before ++ child :: after)%list = Throw e).
  { induction Hbefore as [|c before [n Hn] _ IH]; cbn.
    - now rewrite Hchild.
    - now rewrite Hn, IH. }
  now rewrite Hc.
Qed.

Lemma parseXML_child_error_witness :
  parseXML literal_parse
    (Element (Some "GROUP") [] ""
       [Element (Some "RECT") [] "" [];
        Element (Some "RECT") [("style", "{")] "" []])
  = Throw "SyntaxError".
Proof.
  apply (parseXML_child_error literal_parse (Some "GROUP") [] ""
           [Element (Some "RECT") [] "" []] []
           (Element (Some "RECT") [("style", "{")] "" []) "SyntaxError").
  - constructor; [|constructor]. eexists. reflexivity.
  - reflexivity.
Defined.

Lemma parse_attributes_keeps_attrs JSON5_parse attributes :
  no_reserved_attribute attributes ->
  forall attrs rst attrs' rst',
    parse_attributes JSON5_parse (attrs, rst) attributes = Ok (attrs', rst') ->
    attrs' = attrs.
Proof.
  induction 1 as [|[k val] more [Hs Ha] _ IH]; intros attrs rst attrs' rst'; cbn.
  - now intros [= <- _].
  - cbn in Hs, Ha. apply String.eqb_neq in Hs, Ha.
    rewrite Hs, Ha. cbn [orb].
    destruct (JSON5_parse val); apply IH.
Qed.

(** X12 — Ordinary attributes never reach [attrs]: unless an attribute is named
    [style] or [attrs], the parsed node's [attrs] hold nothing but the inner
    text of a [text] element.  So [width="100"] on a tag is not the
    [attrs.width] that layout reads. *)
Theorem parseXML_plain_attributes
    (JSON5_parse : string -> result value) (tag : option string)
    (attributes : list (string * string)) (innerText : string)
    (kids : list HTMLElement) (node : NodeInstructure) :
  no_reserved_attribute attributes ->
  parseXML JSON5_parse (Element tag attributes innerText kids) = Ok node ->
  node_attrs node
  = if tag_name tag =? "text" then [("text", VStr innerText)] else [].
Proof.
  intros Hplain. rewrite parseXML_eq.
  destruct (parse_children JSON5_parse kids) as [children|]; [|discriminate].
  cbn zeta.
  destruct (parse_attributes _ _ _) as [[attrs rst]|] eqn:Hattrs; [|discriminate].
  apply (parse_attributes_keeps_attrs JSON5_parse attributes Hplain) in Hattrs.
  intros [= <-]. now destruct children.
Qed.

Lemma parseXML_plain_attributes_witness :
  parseXML literal_parse
    (Element (Some "RECT") [("width", "100"); ("fill", "red")] "" [])
  = Ok (Node (VStr "rect") [] None None
             [("width", num 100); ("fill", VStr "red")])
  /\ node_attrs (Node (VStr "rect") [] None None
                      [("width", num 100); ("fill", VStr "red")])
     = [].
Proof.
  split; [reflexivity|].
  apply (parseXML_plain_attributes literal_parse (Some "RECT")
           [("width", "100"); ("fill", "red")] "" []).
  - constructor; [split; discriminate|].
    constructor; [split; discriminate | constructor].
  - reflexivity.
Defined.

Lemma parse_attributes_app JSON5_parse l l' st st' :
  parse_attributes JSON5_parse st l = Ok st' ->
  parse_attributes JSON5_parse st (l ++ l')%list
  = parse_attributes JSON5_parse st' l'.
Proof.
  revert st. induction l as [|[k val] l IH]; intros st; cbn.
  - now intros [= ->].
  - destruct (parse_attribute JSON5_parse st k val); [apply IH | discriminate].
Qed.

Lemma get_assign_same k v ps : get (assign k v ps) k = v.
Proof. unfold get. now rewrite lookup_assign_same. Qed.

(** X13 — An attribute named [type] takes the place of the tag name: when its
    value does not parse, the raw string becomes the type of the node. *)
Theorem parseXML_type_attribute
    (JSON5_parse : string -> result value) (tag : option string)
    (before after : list (string * string)) (val innerText e : string)
    (kids : list HTMLElement) (node : NodeInstructure) :
  JSON5_parse val = Throw e ->
  no_attribute "type" after ->
  parseXML JSON5_parse
    (Element tag (before ++ ("type", val) :: after)%list innerText kids)
  = Ok node ->
  node_type node = VStr val.
Proof.
  intros Hfail Hafter. rewrite parseXML_eq.
  destruct (parse_children JSON5_parse kids) as [children|]; [|discriminate].
  cbn zeta.
  destruct (parse_attributes JSON5_parse
              (if tag_name tag =? "text" then [("text", VStr innerText)] else [],
               [("type", VStr (tag_name tag))]) before)
    as [[attrs rst]|] eqn:Hbefore.
  - rewrite (parse_attributes_app _ _ _ _ _ Hbefore).
    cbn [parse_attributes].
    assert (Hstep : parse_attribute JSON5_parse (attrs, rst) "type" val
                    = Ok (attrs, assign "type" (VStr val) rst)).
    { unfold parse_attribute.
      change (keyConvert "type") with "type". cbn [String.eqb Ascii.eqb Bool.eqb orb].
      now rewrite Hfail. }
    rewrite Hstep.
    destruct (parse_attributes JSON5_parse (attrs, assign "type" (VStr val) rst) after)
      as [[attrs' rst']|] eqn:Hrest; [|discriminate].
    intros [= <-].
    assert (Hget : get rst' "type" = VStr val).
    { unfold get.
      rewrite (parse_attributes_lookup_other _ _ _ Hafter _ _ _ _ Hrest).
      now rewrite lookup_assign_same. }
    destruct children; cbn; exact Hget.
  - assert (Hthrow : forall l st ex,
               parse_attributes JSON5_parse st l = Throw ex ->
               forall l', parse_attributes JSON5_parse st (l ++ l')%list = Throw ex).
    { induction l as [|[k v] l IH]; intros st ex; cbn; [discriminate|].
      destruct (parse_attribute JSON5_parse st k v); [apply IH|].
      now intros [= ->] l'. }
    rewrite (Hthrow _ _ _ Hbefore). discriminate.
Qed.

Lemma parseXML_type_attribute_witness :
  parseXML literal_parse
    (Element (Some "RECT") [("type", "circle"); ("id", "5")] "" [])
  = Ok (Node (VStr "circle") [] None None [("id", num 5)])
  /\ node_type (Node (VStr "circle") [] None None [("id", num 5)])
     = VStr "circle".
Proof.
  split; [reflexivity|].
  apply (parseXML_type_attribute literal_parse (Some "RECT") [] [("id", "5")]
           "circle" "" "SyntaxError" []).
  - reflexivity.
  - constructor; [discriminate | constructor].
  - reflexivity.
Defined.

(** ** Objects *)

Lemma lookup_spread_other k base extra :
  Forall (fun kv => fst kv <> k) extra ->
  lookup k (spread base extra) = lookup k base.
Proof.
  unfold spread. intros H. revert base.
  induction H as [|[k0 v0] extra Hk _ IH]; intros base; cbn; [reflexivity|].
  rewrite IH. apply lookup_assign_other. cbn in Hk. congruence.
Qed.

Lemma lookup_absent_keys k ps : lookup k ps = None -> Forall (fun kv => fst kv <> k) ps.
Proof.
  induction ps as [|[k0 v0] ps IH]; cbn; [constructor|].
  destruct (String.eqb_spec k k0); [discriminate|].
  intros H. constructor; [cbn; congruence | now apply IH].
Qed.

Lemma not_in_keys k ps : ~ In k (keys ps) -> Forall (fun kv => fst kv <> k) ps.
Proof.
  induction ps as [|[k0 v0] ps IH]; cbn; [constructor|].
  intros H. constructor; [cbn; intuition congruence | apply IH; tauto].
Qed.

(** With distinct names, the properties of the spread object win. *)
Lemma lookup_spread_extra k v base extra :
  NoDup (keys extra) ->
  lookup k extra = Some v ->
  lookup k (spread base extra) = Some v.
Proof.
  unfold spread. intros Hnodup. revert base.
  induction extra as [|[k0 v0] extra IH]; intros base; cbn; [discriminate|].
  inversion Hnodup as [|? ? Hnotin Hrest]; subst.
  destruct (String.eqb_spec k k0) as [->|Hne].
  - intros [= ->].
    change (fold_left _ extra (assign k0 v base))
      with (spread (assign k0 v base) extra).
    rewrite (lookup_spread_other k0 _ extra (not_in_keys k0 extra Hnotin)).
    apply lookup_assign_same.
  - intros H. now apply IH.
Qed.

Lemma lookup_spread_base k base extra :
  lookup k extra = None ->
  lookup k (spread base extra) = lookup k base.
Proof.
  intros H. apply lookup_spread_other. now apply lookup_absent_keys.
Qed.

Lemma keys_assign_present k v ps :
  In k (keys ps) -> keys (assign k v ps) = keys ps.
Proof.
  unfold keys.
  induction ps as [|[k0 v0] ps IH]; cbn; [contradiction|].
  destruct (String.eqb_spec k k0) as [->|Hne]; [reflexivity|].
  intros [Heq|Hin]; [congruence|]. cbn. now rewrite IH.
Qed.

Lemma keys_assign_absent k v ps :
  ~ In k (keys ps) -> keys (assign k v ps) = (keys ps ++ [k])%list.
Proof.
  unfold keys.
  induction ps as [|[k0 v0] ps IH]; cbn; [reflexivity|].
  destruct (String.eqb_spec k k0) as [->|Hne]; [tauto|].
  intros H. cbn. rewrite IH; [reflexivity | tauto].
Qed.

Lemma NoDup_assign k v ps : NoDup (keys ps) -> NoDup (keys (assign k v ps)).
Proof.
  intros H. destruct (in_dec string_dec k (keys ps)) as [Hin|Hnotin].
  - now rewrite keys_assign_present.
  - rewrite keys_assign_absent by assumption.
    apply NoDup_app; [assumption | repeat constructor; intros [] |].
    intros x Hx [<-|[]]. contradiction.
Qed.

(** ** [getBBox] *)

Section BoxProperties.

Variable s2n : string -> number.
Variable n2s : number -> string.

Lemma margin_added base v :
  number_if_set v = true ->
  exists q,
    (if truthy v then js_add s2n n2s (VNum (Fin base)) v else VNum (Fin base))
    = VNum (Fin q)
    /\ (q == base + margin v)%Q.
Proof.
  intros Hv. destruct (truthy v) eqn:Ht.
  - destruct (number_if_set_finite v Hv Ht) as [m ->].
    exists (base + m)%Q. split; reflexivity.
  - exists base. split; [reflexivity|].
    destruct v as [| | |[|m]| | |]; cbn [margin]; try lra.
    cbn in Ht. apply negb_false_iff, Qeq_bool_iff in Ht. lra.
Qed.

(** X14 — The position of the box is the offset shifted by the margins, and one
    line of 16 further down for a text shape; the children's extent plays no
    part in it.  The offset and the attributes that [getBBox] computes with
    are safe integers, so that the sums are not rounded. *)
Theorem getBBox_position
    (node : NodeInstructure) (x y : Q) (chilrenBBox : BBox.t) :
  exact_geometry node = true ->
  safe_offset (Offset.mk (VNum (Fin x)) (VNum (Fin y))) = true ->
  exists bx by',
    BBox.x (fst (getBBox s2n n2s node (Offset.mk (VNum (Fin x)) (VNum (Fin y)))
                   chilrenBBox)) = VNum (Fin bx)
    /\ BBox.y (fst (getBBox s2n n2s node (Offset.mk (VNum (Fin x)) (VNum (Fin y)))
                      chilrenBBox)) = VNum (Fin by')
    /\ (bx == x + margin (get (node_attrs node) "marginLeft"))%Q
    /\ (by' == y + (if is_text_shape (node_type node) (node_attrs node)
                    then 16 else 0)
               + margin (get (node_attrs node) "marginTop"))%Q.
Proof.
  intros Hexact _.
  destruct (exact_geometry_numeric node Hexact) as (_ & _ & Htop & Hleft).
  rewrite getBBox_fst. cbn zeta. cbn [BBox.x BBox.y Offset.x Offset.y].
  destruct (js_or_number x) as (x0 & -> & Hx0).
  destruct (js_or_number y) as (y0 & -> & Hy0).
  destruct (margin_added x0 _ Hleft) as (bx & -> & Hbx).
  assert (Hy1 : exists y1,
             (if is_text_shape (node_type node) (node_attrs node)
              then js_add s2n n2s (VNum (Fin y0))
                     (snd (shapeSize s2n n2s (node_type node) (node_attrs node)))
              else VNum (Fin y0)) = VNum (Fin y1)
             /\ (y1 == y0 + (if is_text_shape (node_type node) (node_attrs node)
                             then 16 else 0))%Q).
  { destruct (is_text_shape _ _) eqn:Htext.
    - rewrite (text_shape_height s2n n2s _ _ Htext).
      exists (y0 + inject_Z 16)%Q. split; [reflexivity|].
      unfold inject_Z. lra.
    - exists y0. split; [reflexivity | lra]. }
  destruct Hy1 as (y1 & -> & Hy1).
  destruct (margin_added y1 _ Htop) as (by' & -> & Hby).
  exists bx, by'. repeat split; lra.
Qed.

End BoxProperties.

Lemma getBBox_position_witness :
  exists bx by',
    BBox.x (fst (getBBox int_StringToNumber int_NumberToString
                   (Node (VStr "text") [("text", VStr "hi"); ("marginTop", num 4)]
                         None None [])
                   (Offset.mk (VNum (Fin 1)) (VNum (Fin 2)))
                   (BBox.mk (num 0) (num 0) (num 0) (num 0)))) = VNum (Fin bx)
    /\ BBox.y (fst (getBBox int_StringToNumber int_NumberToString
                      (Node (VStr "text") [("text", VStr "hi"); ("marginTop", num 4)]
                            None None [])
                      (Offset.mk (VNum (Fin 1)) (VNum (Fin 2)))
                      (BBox.mk (num 0) (num 0) (num 0) (num 0)))) = VNum (Fin by')
    /\ (bx == 1 + 0)%Q
    /\ (by' == 2 + 16 + inject_Z 4)%Q.
Proof.
  apply (getBBox_position int_StringToNumber int_NumberToString
           (Node (VStr "text") [("text", VStr "hi"); ("marginTop", num 4)]
                 None None [])
           1 2 (BBox.mk (num 0) (num 0) (num 0) (num 0))).
  - reflexivity.
  - reflexivity.
Defined.

(** X15 — A text shape gets [fontSize: 12] and [fill: '#000'] only where the
    node says nothing itself: every attribute the node has is kept with its
    value. *)
Theorem getBBox_text_defaults
    (StringToNumber : string -> number) (NumberToString : number -> string)
    (node : NodeInstructure) (offset : Offset.t) (chilrenBBox : BBox.t) :
  is_text_shape (node_type node) (node_attrs node) = true ->
  NoDup (keys (node_attrs node)) ->
  let attrs' :=
    node_attrs (snd (getBBox StringToNumber NumberToString node offset chilrenBBox)) in
  (forall k v, lookup k (node_attrs node) = Some v -> lookup k attrs' = Some v)
  /\ (lookup "fontSize" (node_attrs node) = None ->
      lookup "fontSize" attrs' = Some (num 12))
  /\ (lookup "fill" (node_attrs node) = None ->
      lookup "fill" attrs' = Some (VStr "#000")).
Proof.
  intros Htext Hnodup attrs'. subst attrs'.
  rewrite getBBox_snd, Htext.
  destruct node as [type attrs children bbox rest]. cbn [set_attrs node_attrs] in *.
  repeat split.
  - intros k v Hk. now apply lookup_spread_extra.
  - intros Hnone. now rewrite lookup_spread_base.
  - intros Hnone. now rewrite lookup_spread_base.
Qed.

Lemma getBBox_text_defaults_witness :
  lookup "fill"
    (node_attrs (snd (getBBox int_StringToNumber int_NumberToString
                        (Node (VStr "text")
                              [("text", VStr "hi"); ("fill", VStr "red")]
                              None None [])
                        origin (BBox.mk (num 0) (num 0) (num 0) (num 0)))))
  = Some (VStr "red").
Proof.
  apply (getBBox_text_defaults int_StringToNumber int_NumberToString
           (Node (VStr "text") [("text", VStr "hi"); ("fill", VStr "red")]
                 None None [])
           origin (BBox.mk (num 0) (num 0) (num 0) (num 0))).
  - reflexivity.
  - repeat constructor; cbn; intuition discriminate.
  - reflexivity.
Defined.

(** X16 — An ellipse needs both radii: with [rx] or [ry] unset neither axis is
    resolved from the other radius, and the box keeps the size that encloses
    the children. *)
Theorem getBBox_ellipse_needs_both_radii
    (StringToNumber : string -> number) (NumberToString : number -> string)
    (node : NodeInstructure) (offset : Offset.t) (chilrenBBox : BBox.t) :
  node_type node = VStr "ellipse" ->
  truthy (get (node_attrs node) "rx") = false
  \/ truthy (get (node_attrs node) "ry") = false ->
  let bbox := fst (getBBox StringToNumber NumberToString node offset chilrenBBox) in
  BBox.width bbox = js_or (BBox.width chilrenBBox) (num 0)
  /\ BBox.height bbox = js_or (BBox.height chilrenBBox) (num 0).
Proof.
  intros Hty Hunset bbox. subst bbox.
  rewrite getBBox_fst. cbn zeta. cbn [BBox.width BBox.height].
  assert (Hshape : shapeSize StringToNumber NumberToString (node_type node)
                     (node_attrs node) = (VUndef, VUndef)).
  { rewrite Hty. unfold shapeSize.
    cbn [strict_eq String.eqb Ascii.eqb Bool.eqb orb]. unfold js_and.
    destruct Hunset as [Hrx | Hry].
    - now rewrite Hrx, Hrx.
    - destruct (truthy (get (node_attrs node) "rx")) eqn:Hrx;
        now rewrite ?Hrx, ?Hry. }
  rewrite Hshape. split; reflexivity.
Qed.

Lemma getBBox_ellipse_needs_both_radii_witness :
  BBox.width
    (fst (getBBox int_StringToNumber int_NumberToString
            (Node (VStr "ellipse") [("rx", num 5)] None None [])
            origin (BBox.mk (num 0) (num 0) (num 30) (num 20))))
  = js_or (num 30) (num 0).
Proof.
  apply (getBBox_ellipse_needs_both_radii int_StringToNumber int_NumberToString
           (Node (VStr "ellipse") [("rx", num 5)] None None [])
           origin (BBox.mk (num 0) (num 0) (num 30) (num 20))).
  - reflexivity.
  - right. reflexivity.
Defined.

(** ** [generateTarget] *)

Section ResolveProperties.

Variable s2n : string -> number.
Variable n2s : number -> string.

Lemma resolve_children_paired (R : NodeInstructure -> NodeInstructure -> Prop)
    attrs lastOffset l :
  Forall (fun c => forall key offset, paired R c (resolve s2n n2s key c offset)) l ->
  forall index st,
    Forall2 (paired R) l
      (fst (resolve_children s2n n2s (resolve s2n n2s) attrs lastOffset l index st)).
Proof.
  induction 1 as [|c l Hc _ IH]; intros index st; cbn [resolve_children].
  - constructor.
  - specialize (IH (S index)
                   (advance s2n n2s st
                      (resolve s2n n2s (Some (child_key s2n n2s attrs index)) c
                         (Offset.mk (Offset.x lastOffset) (flow_y st))))).
    destruct (resolve_children _ _ _ _ _ _ _ _) as [more st'].
    cbn [fst] in *. constructor; [apply Hc | exact IH].
Qed.

(** A relation that every single call establishes holds between the whole
    input tree and the whole resolved tree. *)
Lemma resolve_paired (R : NodeInstructure -> NodeInstructure -> Prop) :
  (forall key node offset, R node (resolve s2n n2s key node offset)) ->
  forall node key offset, paired R node (resolve s2n n2s key node offset).
Proof.
  intros Hlocal.
  induction node as [type attrs0 children bbox0 rest IH]
    using NodeInstructure_tree_ind.
  intros key offset.
  pose proof (resolve_children_field s2n n2s key
                (Node type attrs0 children bbox0 rest) offset) as Hkids.
  cbn [node_attrs node_children] in Hkids.
  destruct children as [[|c l]|].
  - apply (paired_inner R _ _ [] []); auto.
  - cbn [resolve_kids] in Hkids.
    pose proof (resolve_children_paired R (with_key key attrs0) offset (c :: l) IH
                  0%nat
                  (mkFlow
                     (if truthy (get (with_key key attrs0) "marginTop")
                      then js_add s2n n2s (Offset.y offset)
                             (get (with_key key attrs0) "marginTop")
                      else Offset.y offset) (num 0) (num 0))) as Hpaired.
    destruct (resolve_children _ _ _ _ _ _ _ _) as [outs st].
    apply (paired_inner R _ _ (c :: l) outs); auto.
  - apply paired_leaf; auto.
Qed.

Lemma resolve_type_rest key node offset :
  node_type (resolve s2n n2s key node offset) = node_type node
  /\ node_rest (resolve s2n n2s key node offset) = node_rest node.
Proof.
  destruct node as [type attrs0 children bbox0 rest].
  rewrite resolve_unfold. cbn zeta. rewrite getBBox_snd.
  cbn [node_type node_attrs]. now destruct (is_text_shape _ _).
Qed.

Lemma get_spread_bbox ps b :
  get (spread ps (BBox.to_props b)) "x" = BBox.x b
  /\ get (spread ps (BBox.to_props b)) "y" = BBox.y b
  /\ get (spread ps (BBox.to_props b)) "width" = BBox.width b
  /\ get (spread ps (BBox.to_props b)) "height" = BBox.height b.
Proof.
  unfold spread, BBox.to_props. cbn [fold_left fst snd].
  repeat split;
    repeat (rewrite get_assign_other by discriminate);
    apply get_assign_same.
Qed.

Lemma resolve_mirrors_bbox key node offset :
  exists bbox,
    node_bbox (resolve s2n n2s key node offset) = Some bbox
    /\ get (node_attrs (resolve s2n n2s key node offset)) "x" = BBox.x bbox
    /\ get (node_attrs (resolve s2n n2s key node offset)) "y" = BBox.y bbox
    /\ get (node_attrs (resolve s2n n2s key node offset)) "width" = BBox.width bbox
    /\ get (node_attrs (resolve s2n n2s key node offset)) "height"
       = BBox.height bbox.
Proof.
  destruct node as [type attrs0 children bbox0 rest].
  rewrite resolve_unfold. cbn zeta.
  destruct (getBBox _ _ _ _ _) as [bbox target]. cbn [fst snd].
  exists bbox. destruct target as [ty at' ch bb rs].
  cbn [set_bbox set_attrs node_bbox node_attrs].
  split; [reflexivity | apply get_spread_bbox].
Qed.

End ResolveProperties.

(** X17 — Layout only fills in: the resolved tree has the shape of the input
    tree, node for node in the same order, and every node keeps its type
    and the properties outside [attrs]. *)
Theorem generateTarget_keeps_structure
    (StringToNumber : string -> number) (NumberToString : number -> string)
    (target : NodeInstructure) (lastOffset : Offset.t) :
  paired (fun src out => node_type out = node_type src
                         /\ node_rest out = node_rest src)
         target
         (generateTarget StringToNumber NumberToString target lastOffset).
Proof.
  apply resolve_paired. intros key node offset. apply resolve_type_rest.
Qed.

(** X18 — After layout every node of the tree has a [bbox], and its [attrs]
    carry the same [x], [y], [width] and [height], whatever the node said
    under those names before. *)
Theorem generateTarget_mirrors_bbox
    (StringToNumber : string -> number) (NumberToString : number -> string)
    (target : NodeInstructure) (lastOffset : Offset.t) :
  Forall_nodes
    (fun out =>
       exists bbox,
         node_bbox out = Some bbox
         /\ get (node_attrs out) "x" = BBox.x bbox
         /\ get (node_attrs out) "y" = BBox.y bbox
         /\ get (node_attrs out) "width" = BBox.width bbox
         /\ get (node_attrs out) "height" = BBox.height bbox)
    (generateTarget StringToNumber NumberToString target lastOffset).
Proof.
  apply (paired_right
           (fun src out =>
              exists bbox,
                node_bbox out = Some bbox
                /\ get (node_attrs out) "x" = BBox.x bbox
                /\ get (node_attrs out) "y" = BBox.y bbox
                /\ get (node_attrs out) "width" = BBox.width bbox
                /\ get (node_attrs out) "height" = BBox.height bbox))
    with (a := target).
  - now intros a b H.
  - apply resolve_paired. intros key node offset. apply resolve_mirrors_bbox.
Qed.

Section KeyProperties.

Variable s2n : string -> number.
Variable n2s : number -> string.

Lemma get_spread_other k base extra :
  Forall (fun kv => fst kv <> k) extra ->
  get (spread base extra) k = get base k.
Proof. intros H. unfold get. now rewrite lookup_spread_other. Qed.

Lemma NoDup_with_key key attrs :
  NoDup (keys attrs) -> NoDup (keys (with_key key attrs)).
Proof. destruct key; cbn; [apply NoDup_assign | auto]. Qed.

(** Layout leaves [attrs.key] as it is on entry to the call. *)
Lemma resolve_get_key key type attrs0 children bbox0 rest offset :
  NoDup (keys attrs0) ->
  get (node_attrs (resolve s2n n2s key (Node type attrs0 children bbox0 rest) offset))
      "key"
  = get (with_key key attrs0) "key".
Proof.
  intros Hnodup. rewrite resolve_unfold. cbn zeta.
  destruct (getBBox _ _ _ _ _) as [bbox target] eqn:Hbox.
  pose proof (getBBox_snd s2n n2s
                (Node type (with_key key attrs0)
                   (fst (resolve_kids s2n n2s (resolve s2n n2s)
                           (with_key key attrs0) offset children)) bbox0 rest)
                offset
                (BBox.mk (Offset.x offset) (Offset.y offset)
                   (flow_width (snd (resolve_kids s2n n2s (resolve s2n n2s)
                                       (with_key key attrs0) offset children)))
                   (flow_height (snd (resolve_kids s2n n2s (resolve s2n n2s)
                                        (with_key key attrs0) offset children)))))
    as Hsnd.
  rewrite Hbox in Hsnd. cbn [fst snd node_type node_attrs set_attrs] in *.
  subst target.
  assert (Hbbox : Forall (fun kv : string * value => fst kv <> "key")
                    (BBox.to_props bbox)).
  { repeat constructor; discriminate. }
  destruct (is_text_shape _ _);
    cbn [set_bbox set_attrs node_attrs];
    rewrite (get_spread_other "key" _ _ Hbbox); [|reflexivity].
  pose proof (NoDup_with_key key attrs0 Hnodup) as Hnd.
  unfold get.
  destruct (lookup "key" (with_key key attrs0)) as [v|] eqn:Hk.
  - now rewrite (lookup_spread_extra "key" v text_defaults _ Hnd Hk).
  - now rewrite (lookup_spread_base "key" text_defaults _ Hk).
Qed.

Lemma resolve_children_nth attrs lastOffset l :
  forall index st j c,
    nth_error (fst (resolve_children s2n n2s (resolve s2n n2s) attrs lastOffset
                      l index st)) j = Some c ->
    exists child offset,
      nth_error l j = Some child
      /\ c = resolve s2n n2s (Some (child_key s2n n2s attrs (index + j))) child
                     offset.
Proof.
  induction l as [|child l IH]; intros index st j c; cbn [resolve_children].
  - destruct j; discriminate.
  - specialize (IH (S index)
                   (advance s2n n2s st
                      (resolve s2n n2s (Some (child_key s2n n2s attrs index)) child
                         (Offset.mk (Offset.x lastOffset) (flow_y st))))).
    destruct (resolve_children _ _ _ _ _ _ _ _) as [more st'].
    cbn [fst] in *. destruct j as [|j]; cbn [nth_error].
    + intros [= <-]. eexists _, _. split; [reflexivity|].
      now rewrite Nat.add_0_r.
    + intros H. destruct (IH j c H) as (ch & o & Hch & ->).
      exists ch, o. split; [exact Hch|]. now rewrite Nat.add_succ_r.
Qed.

Lemma resolve_children_Forall (Q : NodeInstructure -> Prop) attrs lastOffset l :
  Forall (fun c => forall key offset, Q (resolve s2n n2s key c offset)) l ->
  forall index st,
    Forall Q (fst (resolve_children s2n n2s (resolve s2n n2s) attrs lastOffset
                     l index st)).
Proof.
  induction 1 as [|c l Hc _ IH]; intros index st; cbn [resolve_children].
  - constructor.
  - specialize (IH (S index)
                   (advance s2n n2s st
                      (resolve s2n n2s (Some (child_key s2n n2s attrs index)) c
                         (Offset.mk (Offset.x lastOffset) (flow_y st))))).
    destruct (resolve_children _ _ _ _ _ _ _ _) as [more st'].
    cbn [fst] in *. constructor; [apply Hc | exact IH].
Qed.

Lemma resolve_keyed node :
  Forall_nodes distinct_names node ->
  forall key offset, Forall_nodes (keyed_children s2n n2s) (resolve s2n n2s key node offset).
Proof.
  induction node as [type attrs0 children bbox0 rest IH]
    using NodeInstructure_tree_ind.
  intros Hdistinct key offset.
  assert (Hself : NoDup (keys attrs0)) by now inversion Hdistinct.
  set (out := resolve s2n n2s key (Node type attrs0 children bbox0 rest) offset).
  assert (Hkey : get (node_attrs out) "key" = get (with_key key attrs0) "key")
    by now apply resolve_get_key.
  pose proof (resolve_children_field s2n n2s key
                (Node type attrs0 children bbox0 rest) offset) as Hkids.
  fold out in Hkids. cbn [node_attrs node_children] in Hkids.
  destruct children as [[|c l]|].
  - apply (Forall_nodes_inner _ out []); auto.
    intros outs j c Houts Hnth. rewrite Hkids in Houts.
    injection Houts as <-. destruct j; discriminate.
  - assert (Hchildren : Forall (Forall_nodes distinct_names) (c :: l)).
    { inversion Hdistinct as [n Hn Hc | n k Hn Hc Hk]; subst; cbn in Hc;
        [discriminate | now injection Hc as ->]. }
    cbn [resolve_kids] in Hkids.
    set (st0 := mkFlow _ _ _) in Hkids.
    pose proof (resolve_children_nth (with_key key attrs0) offset (c :: l) 0%nat st0)
      as Hnth.
    assert (Hall : Forall (Forall_nodes (keyed_children s2n n2s))
                     (fst (resolve_children s2n n2s (resolve s2n n2s)
                             (with_key key attrs0) offset (c :: l) 0%nat st0))).
    { apply resolve_children_Forall.
      rewrite Forall_forall in IH, Hchildren |- *.
      intros ch Hin k o. apply IH; auto. }
    destruct (resolve_children _ _ _ _ _ _ _ _) as [outs st].
    cbn [fst] in *.
    apply (Forall_nodes_inner _ out outs); auto.
    intros outs' j ch Houts Hj. rewrite Hkids in Houts. injection Houts as <-.
    destruct (Hnth j ch Hj) as (child & o & Hchild & ->).
    assert (Hnd : NoDup (keys (node_attrs child))).
    { rewrite Forall_forall in Hchildren.
      pose proof (Hchildren child (nth_error_In _ _ Hchild)) as Hc.
      now inversion Hc. }
    destruct child as [cty cattrs cch cbb crs]. cbn [node_attrs] in Hnd.
    rewrite (resolve_get_key _ _ _ _ _ _ _ Hnd). cbn [with_key].
    rewrite get_assign_same. cbn [Nat.add].
    unfold child_key. now rewrite Hkey.
  - apply Forall_nodes_leaf; auto.
    intros outs j c Houts. rewrite Hkids in Houts. discriminate.
Qed.

Lemma child_key_root attrs j :
  truthy (get attrs "key") = false ->
  child_key s2n n2s attrs j = VStr ("root-" ++ n2s (num_of_nat j)).
Proof. intros H. unfold child_key, js_or. now rewrite H. Qed.

End KeyProperties.

(** X19 — Keys are paths: in a tree whose nodes have distinct attribute names
    and whose root key, if any, is a boolean, a number or a string, after
    layout every child at position [j] of every node carries the key
    [(attrs.key || 'root') + '-' + j] built from its parent's key; below a
    root without a key these are ['root-0'], ['root-1'], and so on. *)
Theorem generateTarget_keys
    (StringToNumber : string -> number) (NumberToString : number -> string)
    (target : NodeInstructure) (lastOffset : Offset.t) :
  Forall_nodes distinct_names target ->
  primitive (get (node_attrs target) "key") = true ->
  Forall_nodes (keyed_children StringToNumber NumberToString)
    (generateTarget StringToNumber NumberToString target lastOffset)
  /\ (truthy (get (node_attrs target) "key") = false ->
      forall outs j c,
        node_children
          (generateTarget StringToNumber NumberToString target lastOffset)
        = Some outs ->
        nth_error outs j = Some c ->
        get (node_attrs c) "key"
        = VStr ("root-" ++ NumberToString (num_of_nat j))).
Proof.
  intros Hdistinct _.
  pose proof (resolve_keyed StringToNumber NumberToString target Hdistinct
                None lastOffset) as Hkeyed.
  split; [exact Hkeyed|].
  intros Hroot outs j c Houts Hj.
  assert (Hlocal : keyed_children StringToNumber NumberToString
                     (generateTarget StringToNumber NumberToString target lastOffset))
    by now inversion Hkeyed.
  rewrite (Hlocal outs j c Houts Hj).
  apply child_key_root.
  destruct target as [type attrs0 children bbox0 rest].
  unfold generateTarget.
  inversion Hdistinct as [n Hn _ | n k Hn _ _]; subst;
    now rewrite (resolve_get_key StringToNumber NumberToString None _ _ _ _ _ _ Hn).
Qed.

Lemma generateTarget_keys_witness :
  Forall_nodes (keyed_children int_StringToNumber int_NumberToString)
    (generateTarget int_StringToNumber int_NumberToString narrow_parent origin).
Proof.
  apply (generateTarget_keys int_StringToNumber int_NumberToString
           narrow_parent origin); [|reflexivity].
  apply (Forall_nodes_inner _ _ [wide_child]).
  - repeat constructor; cbn; intuition discriminate.
  - reflexivity.
  - constructor; [|constructor].
    apply Forall_nodes_leaf; [|reflexivity].
    repeat constructor; cbn; intuition discriminate.
Defined.

(** ** [compareTwoTarget] *)

Lemma compare_rest_nth formerChilren count i :
  (i < count)%nat ->
  nth_error (compare_rest formerChilren count) i
  = Some (compare_absent (nth_error formerChilren i)).
Proof.
  intros Hi. unfold compare_rest.
  rewrite !nth_error_map, nth_error_seq.
  apply Nat.ltb_lt in Hi. now rewrite Hi.
Qed.

Lemma compare_children_nth nowChilren :
  forall formerChilren count i,
    (i < count)%nat ->
    nth_error (fst (compare_children compare_present nowChilren formerChilren count)) i
    = Some (fst (compareTwoTarget (nth_error nowChilren i)
                                  (nth_error formerChilren i))).
Proof.
  induction nowChilren as [|n more IH]; intros formerChilren [|count] i Hi;
    try lia; cbn [compare_children].
  - cbn [fst]. rewrite (compare_rest_nth _ _ _ Hi).
    now destruct i.
  - specialize (IH (tl formerChilren) count).
    destruct (compare_present n (nth_error formerChilren 0)) as [d n'] eqn:Hd.
    destruct (compare_children compare_present more (tl formerChilren) count)
      as [ds more'].
    cbn [fst] in *. destruct i as [|i]; cbn [nth_error].
    + rewrite compareTwoTarget_present.
      destruct formerChilren; cbn in *; now rewrite Hd.
    + rewrite (IH i) by lia. now rewrite nth_error_tl.
Qed.

(** X20 — Children are compared by position: where both nodes have a
    [children] array, entry [i] of the children diff is the diff of the two
    children at position [i], a child missing on either side counting as
    absent. *)
Theorem compareTwoTarget_positional
    (now former : NodeInstructure)
    (nowChilren formerChilren : list NodeInstructure) (i : nat) :
  node_children now = Some nowChilren ->
  node_children former = Some formerChilren ->
  (i < Nat.max (List.length nowChilren) (List.length formerChilren))%nat ->
  exists children,
    diff_children (fst (compareTwoTarget (Some now) (Some former))) = Some children
    /\ nth_error children i
       = Some (fst (compareTwoTarget (nth_error nowChilren i)
                                     (nth_error formerChilren i))).
Proof.
  intros Hnow Hformer Hi.
  eexists. split;
    [rewrite compareTwoTarget_present; apply compare_present_children|].
  unfold compare_kids, children_length. rewrite Hnow, Hformer.
  cbn [option_map Math_max iterations].
  destruct (positive_length _ || positive_length _) eqn:Hpos.
  - pose proof (compare_children_nth nowChilren formerChilren _ i Hi) as Hnth.
    destruct (compare_children _ _ _ _) as [ds ns]. exact Hnth.
  - apply orb_false_iff in Hpos as [H1 H2].
    destruct nowChilren, formerChilren; try discriminate. cbn in Hi. lia.
Qed.

Lemma compareTwoTarget_positional_witness :
  exists children,
    diff_children
      (fst (compareTwoTarget
              (Some (Node (VStr "group") [] (Some [lone_rect]) None []))
              (Some (Node (VStr "group") [] (Some [lone_rect; keyed_rect]) None []))))
    = Some children
    /\ nth_error children 1
       = Some (fst (compareTwoTarget (nth_error [lone_rect] 1)
                                     (nth_error [lone_rect; keyed_rect] 1))).
Proof.
  apply (compareTwoTarget_positional
           (Node (VStr "group") [] (Some [lone_rect]) None [])
           (Node (VStr "group") [] (Some [lone_rect; keyed_rect]) None [])
           [lone_rect] [lone_rect; keyed_rect] 1).
  - reflexivity.
  - reflexivity.
  - cbn. lia.
Defined.

Lemma compare_present_action now former :
  action (fst (compare_present now (Some former)))
  = if negb (strict_eq (node_type former) (node_type now)) then restructure
    else if attrs_differ
              (if truthy (get (node_attrs former) "key")
               then assign "key" (get (node_attrs former) "key") (node_attrs now)
               else node_attrs now)
              (node_attrs former)
         then change else same.
Proof.
  destruct now as [type attrs nowKids bbox rest].
  cbn [compare_present node_type node_attrs].
  destruct (compare_kids compare_present nowKids former) as [children nowKids'].
  destruct (negb _); [reflexivity|].
  destruct (attrs_differ _ _); reflexivity.
Qed.

Lemma lookup_in_keys ps k v : lookup k ps = Some v -> In k (keys ps).
Proof.
  induction ps as [|[k0 v0] ps IH]; [discriminate|]. cbn.
  destruct (String.eqb_spec k k0) as [->|Hne]; [now left|].
  intros H. right. now apply IH.
Qed.

(** X21 — Only the attributes of the previous node are looked at: when each of
    them is found unchanged in the current node, the verdict is [same],
    whatever further attributes the current node has gained. *)
Theorem compareTwoTarget_ignores_new_attributes (now former : NodeInstructure) :
  strict_eq (node_type former) (node_type now) = true ->
  (forall e v,
      lookup e (node_attrs former) = Some v -> e <> "children" ->
      lookup e (node_attrs now) = Some v /\ comparable v = true) ->
  action (fst (compareTwoTarget (Some now) (Some former))) = same.
Proof.
  intros Hty Hattrs.
  rewrite compareTwoTarget_present, compare_present_action, Hty. cbn [negb].
  assert (Hkey : (if truthy (get (node_attrs former) "key")
                  then assign "key" (get (node_attrs former) "key") (node_attrs now)
                  else node_attrs now) = node_attrs now).
  { destruct (truthy (get (node_attrs former) "key")) eqn:Ht; [|reflexivity].
    apply assign_present.
    apply (Hattrs "key" _ (truthy_get_present _ _ Ht)). discriminate. }
  rewrite Hkey.
  assert (Hsame : attrs_differ (node_attrs now) (node_attrs former) = false).
  { unfold attrs_differ. apply not_true_is_false. intros Hex.
    apply existsb_exists in Hex as (e & Hin & Hdiff).
    apply filter_In in Hin as [Hin Hne].
    apply negb_true_iff, String.eqb_neq in Hne.
    destruct (lookup_of_key _ e Hin) as [v Hv].
    destruct (Hattrs e v Hv Hne) as [Hnow Hcmp].
    rewrite (includes_keys _ e v Hnow) in Hdiff.
    unfold get in Hdiff. rewrite Hv, Hnow, (strict_eq_refl v Hcmp) in Hdiff.
    discriminate. }
  now rewrite Hsame.
Qed.

Lemma compareTwoTarget_ignores_new_attributes_witness :
  action (fst (compareTwoTarget
                 (Some (Node (VStr "rect")
                             [("width", num 10); ("fill", VStr "red")] None None []))
                 (Some keyless_rect)))
  = same.
Proof.
  apply compareTwoTarget_ignores_new_attributes.
  - reflexivity.
  - intros e v H Hne. cbn in H.
    destruct (e =? "width") eqn:He; [|discriminate].
    apply String.eqb_eq in He. subst e. injection H as <-.
    split; reflexivity.
Defined.

(** X22 — An attribute of the previous node that the current node has lost, or
    holds with another value, makes the verdict [change]. *)
Theorem compareTwoTarget_detects_lost_attribute
    (now former : NodeInstructure) (e : string) (v : value) :
  strict_eq (node_type former) (node_type now) = true ->
  lookup e (node_attrs former) = Some v ->
  e <> "children" -> e <> "key" ->
  lookup e (node_attrs now) = None
  \/ strict_eq (get (node_attrs now) e) v = false ->
  action (fst (compareTwoTarget (Some now) (Some former))) = change.
Proof.
  intros Hty Hv Hchildren Hkey Hlost.
  rewrite compareTwoTarget_present, compare_present_action, Hty. cbn [negb].
  set (attrs := if truthy _ then _ else node_attrs now).
  assert (Hlookup : lookup e attrs = lookup e (node_attrs now)).
  { subst attrs. destruct (truthy _); [|reflexivity].
    now apply lookup_assign_other. }
  assert (Hdiff : attrs_differ attrs (node_attrs former) = true).
  { unfold attrs_differ. apply existsb_exists. exists e. split.
    - apply filter_In. split; [now apply (lookup_in_keys _ e v)|].
      apply negb_true_iff. now apply String.eqb_neq.
    - apply orb_true_iff. destruct Hlost as [Hnone | Hne].
      + right. apply negb_true_iff, includes_absent. congruence.
      + left. apply negb_true_iff. unfold get in *.
        now rewrite Hlookup, Hv. }
  now rewrite Hdiff.
Qed.

Lemma compareTwoTarget_detects_lost_attribute_witness :
  action (fst (compareTwoTarget (Some lone_rect) (Some keyless_rect))) = change.
Proof.
  apply (compareTwoTarget_detects_lost_attribute lone_rect keyless_rect
           "width" (num 10)).
  - reflexivity.
  - reflexivity.
  - discriminate.
  - discriminate.
  - left. reflexivity.
Defined.

(** ** The patch pass *)

Lemma logged_refl P c : logged P 0 c c.
Proof. exists []. now rewrite app_nil_r. Qed.

Lemma logged_trans P n m a b c :
  logged P n a b -> logged P m b c -> logged P (n + m) a c.
Proof.
  intros (l1 & H1 & F1 & L1) (l2 & H2 & F2 & L2).
  exists (l1 ++ l2)%list. split; [|split].
  - now rewrite H2, H1, app_assoc.
  - apply Forall_app. now split.
  - rewrite length_app. lia.
Qed.

Lemma logged_fold {A} P (f : Container -> A -> Container) (size : A -> nat)
    (l : list A) :
  Forall (fun x => forall c, logged P (size x) c (f c x)) l ->
  forall c, logged P (list_sum (map size l)) c (fold_left f l c).
Proof.
  induction 1 as [|x l Hx _ IH]; intros c; cbn.
  - apply logged_refl.
  - eapply logged_trans; [apply Hx | apply IH].
Qed.

Lemma logged_one (P : HostCall -> Prop) c c' call :
  calls c' = (calls c ++ [call])%list -> P call -> logged P 1 c c'.
Proof. intros H Hp. exists [call]. repeat split; auto. Qed.

(** X23 — [addShape] makes one [addShape] call on the host for each node of the
    subtree, and no other call. *)
Theorem addShape_one_call_per_node (node : NodeInstructure) :
  forall container,
    logged is_add_call (node_count node) container (addShape node container).
Proof.
  induction node as [type attrs children bbox rest IH]
    using NodeInstructure_tree_ind.
  intros container. cbn [addShape node_count].
  apply (logged_trans _ 1 _ _
           (fst (host_addShape container type (mkCfg attrs None [])))).
  - apply (logged_one _ _ _ (CallAddShape type (mkCfg attrs None [])));
      [reflexivity | now eexists _, _].
  - destruct children as [l|]; [|apply logged_refl].
    apply (logged_fold _ (fun c e => addShape e c) node_count). exact IH.
Qed.

(** X24 — [delShape] makes one [removeChild] call on the host for each node of
    the subtree, found or not, and no other call. *)
Theorem delShape_one_call_per_node (node : NodeInstructure) :
  forall container,
    logged is_remove_call (node_count node) container (delShape node container).
Proof.
  induction node as [type attrs children bbox rest IH]
    using NodeInstructure_tree_ind.
  intros container. cbn [delShape node_count].
  apply (logged_trans _ 1 _ _
           (host_removeChild container (find_shape container (get attrs "key")))).
  - apply (logged_one _ _ _
             (CallRemoveChild (find_shape container (get attrs "key"))));
      [reflexivity | now eexists].
  - destruct children as [l|]; [|apply logged_refl].
    apply (logged_fold _ (fun c e => delShape e c) node_count). exact IH.
Qed.

Lemma renderTarget_logged target :
  forall st,
    logged is_drawable_add (drawable_count target) (fst st)
           (fst (renderTarget target st)).
Proof.
  induction target as [type attrs children bbox rest IH]
    using NodeInstructure_tree_ind.
  intros st. cbn [renderTarget drawable_count].
  set (st' := if negb (strict_eq type (VStr "group")) then _ else st).
  assert (Hst' : logged is_drawable_add
                   (if strict_eq type (VStr "group") then 0 else 1)
                   (fst st) (fst st')).
  { subst st'. destruct (strict_eq type (VStr "group")) eqn:Hty; cbn [negb].
    - apply logged_refl.
    - unfold host_addShape. cbn [fst].
      eapply logged_one; [reflexivity|]. now eexists _, _. }
  clearbody st'.
  eapply logged_trans; [exact Hst'|].
  destruct children as [l|]; [|apply logged_refl].
  clear Hst'. revert st'.
  induction IH as [|child l Hchild _ IHl]; intros st'; cbn.
  - apply logged_refl.
  - eapply logged_trans; [apply Hchild | apply IHl].
Qed.

(** X25 — [draw] makes exactly one [addShape] call for each node whose type is
    not [group], none for a [group], and no other call; the cache entry it
    leaves is the drawn tree alone. *)
Theorem draw_one_shape_per_drawable_node
    (target : NodeInstructure) (group : Container) :
  logged is_drawable_add (drawable_count target) group
         (fst (fst (draw target group)))
  /\ snd (draw target group) = [target].
Proof.
  split; [|reflexivity].
  unfold draw. cbn [fst]. apply (renderTarget_logged target (group, None)).
Qed.

Lemma fold_fixed {A} (f : Container -> A -> Container) (l : list A) c :
  Forall (fun x => forall c, f c x = c) l -> fold_left f l c = c.
Proof.
  induction 1 as [|x l Hx _ IH]; cbn; [reflexivity|]. now rewrite Hx.
Qed.

Lemma updateTarget_all_same d :
  all_same d -> forall container, updateTarget d container = container.
Proof.
  induction d as [ | val key | val type | n f key children IH
                 | val children type key IH | children type key IH]
    using DiffAction_tree_ind; intros Hsame container;
    inversion Hsame as [|? ? ? Hall]; subst.
  - reflexivity.
  - cbn [updateTarget diff_type diff_key].
    assert (Hc : (if negb (strict_eq type (VStr "group"))
                  then container else container) = container)
      by now destruct (negb _).
    rewrite Hc.
    apply (fold_fixed (fun c n => updateTarget n c)).
    rewrite Forall_forall in IH, Hall |- *. intros x Hin c. apply IH; auto.
Qed.

Lemma compare_children_self l :
  Forall (fun n => snd (compare_present n (Some n)) = n) l ->
  snd (compare_children compare_present l l (List.length l)) = l.
Proof.
  induction 1 as [|n l Hn _ IH]; [reflexivity|].
  cbn. destruct (compare_present n (Some n)) as [d n'].
  destruct (compare_children compare_present l l (List.length l)) as [ds more].
  cbn in *. now subst.
Qed.

Lemma compare_present_self now : snd (compare_present now (Some now)) = now.
Proof.
  induction now as [type attrs nowKids bbox rest IH] using NodeInstructure_tree_ind.
  rewrite compare_present_snd. cbn [node_attrs].
  assert (Hkey : (if truthy (get attrs "key")
                  then assign "key" (get attrs "key") attrs else attrs) = attrs).
  { destruct (truthy (get attrs "key")) eqn:Ht; [|reflexivity].
    apply assign_present. now apply truthy_get_present. }
  rewrite Hkey. f_equal.
  unfold compare_kids, children_length. cbn [node_children].
  destruct nowKids as [l|]; cbn [option_map].
  - destruct (positive_length _ || positive_length _); [|reflexivity].
    cbn [Math_max iterations]. rewrite Nat.max_id.
    pose proof (compare_children_self l IH) as Hself.
    destruct (compare_children compare_present l l (List.length l)) as [ds ns].
    cbn in *. now subst.
  - now destruct (positive_length _ || positive_length _).
Qed.

Lemma copy_of_self v : comparable v = true -> copy_of v v.
Proof. destruct v as [| | |[|]| | |]; try discriminate; constructor. Qed.

Lemma node_copy_self node : Forall_nodes comparable_node node -> node_copy node node.
Proof.
  induction node as [type attrs children bbox rest IH] using NodeInstructure_tree_ind.
  intros Hcmp.
  assert (Hroot : copy_of type type /\ props_copy attrs attrs).
  { assert (Hnode : comparable_node (Node type attrs children bbox rest))
      by now inversion Hcmp.
    destruct Hnode as [Hty Ha]. cbn in Hty, Ha.
    split; [now apply copy_of_self|].
    clear Hcmp IH.
    induction Ha as [|[k v] ps Hv _ IHa]; [constructor|].
    constructor; [|exact IHa].
    split; [reflexivity | now apply copy_of_self]. }
  destruct children as [l|].
  - apply (paired_inner _ _ _ l l); auto.
    assert (Hall : Forall (Forall_nodes comparable_node) l).
    { inversion Hcmp as [n Hn Hc | n k Hn Hc Hk]; subst; cbn in Hc;
        [discriminate | now injection Hc as ->]. }
    clear Hcmp Hroot.
    induction IH as [|c l Hc _ IHl]; [constructor|].
    inversion Hall as [|? ? Hhead Htail]; subst.
    constructor; [exact (Hc Hhead) | exact (IHl Htail)].
  - apply paired_leaf; auto.
Qed.

(** X26 — Rendering again what is already there costs nothing: when the new tree
    equals the cached one and holds no object, array or NaN in its types and
    attributes, [update] makes no call on the host and leaves the cache as
    it was. *)
Theorem update_unchanged_tree
    (target : NodeInstructure) (container : Container) :
  Forall_nodes comparable_node target ->
  update target [target] container = (container, [target]).
Proof.
  intros Hcmp. unfold update. cbn [pop last removelast map].
  pose proof (compare_copy_same target target (node_copy_self target Hcmp) Hcmp)
    as Hsame.
  pose proof (compare_present_self target) as Hself.
  destruct (compare_present target (Some target)) as [diff now'].
  cbn [fst snd] in *. subst now'.
  now rewrite (updateTarget_all_same diff Hsame).
Qed.

Lemma update_unchanged_tree_witness :
  update plain_tree [plain_tree] empty_container = (empty_container, [plain_tree]).
Proof.
  apply update_unchanged_tree.
  eapply Forall_nodes_inner; [ | reflexivity | ].
  - split; repeat constructor.
  - constructor; [|constructor].
    apply Forall_nodes_leaf; [|reflexivity].
    split; repeat constructor.
Defined.

Lemma host_attr_ids c target attrs :
  map shape_id (shapes (host_attr c target attrs)) = map shape_id (shapes c).
Proof.
  unfold host_attr. cbn [shapes]. rewrite map_map. apply map_ext.
  intros e. now destruct (Nat.eqb _ _).
Qed.

Lemma only_updates_fold (l : list DiffAction) :
  Forall (fun d => forall c,
              exists n,
                logged is_attr_call n c (updateTarget d c)
                /\ map shape_id (shapes (updateTarget d c))
                   = map shape_id (shapes c)) l ->
  forall c,
    exists n,
      logged is_attr_call n c (fold_left (fun c d => updateTarget d c) l c)
      /\ map shape_id (shapes (fold_left (fun c d => updateTarget d c) l c))
         = map shape_id (shapes c).
Proof.
  induction 1 as [|d l Hd _ IH]; intros c; cbn.
  - exists 0%nat. split; [apply logged_refl | reflexivity].
  - destruct (Hd c) as (n & Hn & Hidn).
    destruct (IH (updateTarget d c)) as (m & Hm & Hidm).
    exists (n + m)%nat. split; [eapply logged_trans; eauto | congruence].
Qed.

Lemma only_updates_step d :
  only_updates d ->
  forall container,
    exists n,
      logged is_attr_call n container (updateTarget d container)
      /\ map shape_id (shapes (updateTarget d container))
         = map shape_id (shapes container).
Proof.
  induction d as [ | val key | val type | n f key children IH
                 | val children type key IH | children type key IH]
    using DiffAction_tree_ind; intros Honly container;
    inversion Honly as [|? ? ? Hall|? ? ? ? Hall]; subst.
  - exists 0%nat. cbn. split; auto using logged_refl.
  - cbn [updateTarget diff_type diff_key].
    set (c1 := if negb (strict_eq type (VStr "group")) then _ else container).
    assert (H1 : exists n, logged is_attr_call n container c1
                           /\ map shape_id (shapes c1)
                              = map shape_id (shapes container)).
    { subst c1. destruct (negb _); [|exists 0%nat; split; auto using logged_refl].
      destruct (find_shape container key) as [shape|];
        [|exists 0%nat; split; auto using logged_refl].
      exists 1%nat. split; [|apply host_attr_ids].
      eapply logged_one; [reflexivity|]. now eexists _, _. }
    clearbody c1. destruct H1 as (n1 & Hlog1 & Hid1).
    assert (Hkids : Forall (fun d => forall c,
                        exists n,
                          logged is_attr_call n c (updateTarget d c)
                          /\ map shape_id (shapes (updateTarget d c))
                             = map shape_id (shapes c)) children).
    { rewrite Forall_forall in IH, Hall |- *. intros d Hin. apply IH; auto. }
    destruct (only_updates_fold children Hkids c1) as (m & Hm & Hidm).
    exists (n1 + m)%nat. split; [eapply logged_trans; eauto | congruence].
  - cbn [updateTarget diff_type diff_key].
    set (c1 := if negb (strict_eq type (VStr "group")) then _ else container).
    assert (Hc1 : c1 = container) by (subst c1; now destruct (negb _)).
    clearbody c1. subst c1.
    assert (Hkids : Forall (fun d => forall c,
                        exists n,
                          logged is_attr_call n c (updateTarget d c)
                          /\ map shape_id (shapes (updateTarget d c))
                             = map shape_id (shapes c)) children).
    { rewrite Forall_forall in IH, Hall |- *. intros d Hin. apply IH; auto. }
    apply (only_updates_fold children Hkids).
Qed.

(** X27 — [update] without a cached tree treats the whole new tree as added:
    it creates a shape for every node, unless the root is a [group], in
    which case it creates nothing at all; either way the new tree becomes
    the cache entry. *)
Theorem update_without_cache (target : NodeInstructure) (container : Container) :
  update target [] container
  = (if strict_eq (node_type target) (VStr "group") then container
     else addShape target container,
     [target]).
Proof.
  destruct target as [type attrs children bbox rest].
  unfold update. cbn [pop last removelast map compare_present node_type truthy].
  cbn [updateTarget diff_type app].
  now destruct (strict_eq type (VStr "group")).
Qed.

(** X28 — [update] replaces the newest tree of the cache entry by the new one,
    so an entry that holds a tree keeps its length; the tree it stores is
    the new tree up to [attrs.key]. *)
Theorem update_replaces_cached_tree
    (target : NodeInstructure) (entry : list NodeInstructure)
    (container : Container) :
  exists stored,
    snd (update target entry container) = (removelast entry ++ [stored])%list
    /\ key_only target stored.
Proof.
  unfold update, pop.
  pose proof (compare_present_key_only target (last (map Some entry) None)) as Hkey.
  destruct (compare_present target (last (map Some entry) None)) as [diff stored].
  exists stored. split; [reflexivity | exact Hkey].
Qed.

(** ** Patching a tree of the same structure *)

Lemma compare_children_only_updates l :
  Forall (fun n => forall former,
              paired same_type n former ->
              only_updates (fst (compare_present n (Some former)))) l ->
  forall l',
    Forall2 (paired same_type) l l' ->
    Forall only_updates
           (fst (compare_children compare_present l l' (List.length l))).
Proof.
  induction 1 as [|n l Hn _ IH]; intros l' Hpair;
    inversion Hpair as [|? n' ? k' Hhead Htail]; subst; cbn; [constructor|].
  specialize (Hn n' Hhead). specialize (IH k' Htail).
  destruct (compare_present n (Some n')) as [d n1].
  destruct (compare_children compare_present l k' (List.length l)) as [ds more].
  cbn in *. now constructor.
Qed.

Lemma compare_only_updates now :
  forall former,
    paired same_type now former ->
    only_updates (fst (compare_present now (Some former))).
Proof.
  induction now as [type attrs nowKids bbox rest IH]
    using NodeInstructure_tree_ind.
  intros former Hpair.
  assert (Htype : strict_eq (node_type former) type = true)
    by exact (paired_root _ _ _ Hpair).
  assert (Hkids : Forall only_updates
                    (fst (compare_kids compare_present nowKids former))).
  { unfold compare_kids, children_length.
    inversion Hpair as [a b _ Ha Hb | a b l l' _ Ha Hb Hl]; subst;
      cbn in Ha; subst; rewrite Hb; cbn [option_map].
    - cbn. constructor.
    - destruct (positive_length _ || positive_length _); [|constructor].
      cbn [Math_max iterations].
      rewrite <- (Forall2_length Hl), Nat.max_id.
      pose proof (compare_children_only_updates l IH l' Hl) as Hds.
      destruct (compare_children compare_present l l' (List.length l)) as [ds ns].
      exact Hds. }
  cbn [compare_present].
  destruct (compare_kids compare_present nowKids former) as [children nowKids'].
  cbn [fst] in Hkids. rewrite Htype. cbn [negb].
  destruct (attrs_differ _ _); cbn [fst]; now constructor.
Qed.

(** X29 — A new tree of the same structure as the cached one, with the same
    type at every node, is patched in place: [update] makes only [attr]
    calls on the host, and the container holds the same shapes afterwards. *)
Theorem update_same_structure
    (target former : NodeInstructure) (entry : list NodeInstructure)
    (container : Container) :
  paired same_type target former ->
  exists n,
    logged is_attr_call n container
           (fst (update target (entry ++ [former])%list container))
    /\ map shape_id
         (shapes (fst (update target (entry ++ [former])%list container)))
       = map shape_id (shapes container).
Proof.
  intros Hpair. unfold update, pop.
  rewrite map_app. cbn [map]. rewrite last_last.
  pose proof (compare_only_updates target former Hpair) as Honly.
  destruct (compare_present target (Some former)) as [diff stored].
  cbn [fst] in *. now apply only_updates_step.
Qed.

Lemma update_same_structure_witness :
  exists n,
    logged is_attr_call n drawn_container
           (fst (update (Node (VStr "rect") [("width", num 20)] None None [])
                        ([] ++ [keyed_rect])%list drawn_container))
    /\ map shape_id
         (shapes (fst (update (Node (VStr "rect") [("width", num 20)] None None [])
                              ([] ++ [keyed_rect])%list drawn_container)))
       = map shape_id (shapes drawn_container).
Proof.
  apply (update_same_structure
           (Node (VStr "rect") [("width", num 20)] None None []) keyed_rect []).
  apply paired_leaf; reflexivity.
Defined.

(** ** From the element to the laid out node *)

Lemma shapeSize_no_attrs s2n n2s type :
  shapeSize s2n n2s type [] = (VUndef, VUndef).
Proof.
  unfold shapeSize. cbn.
  destruct (strict_eq type (VStr "maker") || strict_eq type (VStr "circle"));
    [reflexivity|].
  destruct (strict_eq type (VStr "ellipse")); [reflexivity|].
  now destruct (strict_eq type (VStr "text")).
Qed.

(** X30 — Sizes written as plain attributes of a tag are not seen by layout: an
    element without child elements, other than [text], none of whose
    attributes is [style], [attrs], [children] or [__proto__], compiles to
    a node with an empty box at the origin, whatever its [width] or [height]
    attribute says. *)
Theorem compile_plain_leaf
    (JSON5_parse : string -> result value)
    (StringToNumber : string -> number) (NumberToString : number -> string)
    (tag : option string) (attributes : list (string * string))
    (innerText : string) (node : NodeInstructure) :
  no_reserved_attribute attributes ->
  no_attribute "children" attributes ->
  no_attribute "__proto__" attributes ->
  (tag_name tag =? "text") = false ->
  parseXML JSON5_parse (Element tag attributes innerText []) = Ok node ->
  node_bbox (generateTarget StringToNumber NumberToString node origin)
  = Some (BBox.mk (num 0) (num 0) (num 0) (num 0)).
Proof.
  intros Hplain _ _ Htag. rewrite parseXML_eq. cbn [parse_children]. cbn zeta.
  rewrite Htag.
  destruct (parse_attributes _ _ _) as [[attrs rst]|] eqn:Hattrs; [|discriminate].
  apply (parse_attributes_keeps_attrs JSON5_parse attributes Hplain) in Hattrs.
  subst attrs. intros [= <-].
  unfold generateTarget.
  cbn [resolve with_key resolve_kids]. unfold getBBox.
  cbn [node_attrs node_type].
  rewrite shapeSize_no_attrs.
  unfold is_text_shape. cbn [get lookup truthy]. rewrite andb_false_r.
  assert (Hge : js_ge StringToNumber NumberToString VUndef (num 0) = false)
    by reflexivity.
  rewrite Hge. reflexivity.
Qed.

Lemma compile_plain_leaf_witness :
  parseXML literal_parse
    (Element (Some "RECT") [("width", "100"); ("height", "50")] "" [])
  = Ok (Node (VStr "rect") [] None None
             [("width", num 100); ("height", num 50)])
  /\ node_bbox (generateTarget int_StringToNumber int_NumberToString
                  (Node (VStr "rect") [] None None
                        [("width", num 100); ("height", num 50)])
                  origin)
     = Some (BBox.mk (num 0) (num 0) (num 0) (num 0)).
Proof.
  split; [reflexivity|].
  apply (compile_plain_leaf literal_parse int_StringToNumber int_NumberToString
           (Some "RECT") [("width", "100"); ("height", "50")] "").
  - constructor; [split; discriminate|].
    constructor; [split; discriminate | constructor].
  - constructor; [discriminate|]. constructor; [discriminate | constructor].
  - constructor; [discriminate|]. constructor; [discriminate | constructor].
  - reflexivity.
  - reflexivity.
Defined.
